(** * api_gen.py: the generator of h5py's lowest-level Cython bindings

    A shallow embedding of [src/api_gen.py]: the [Line] parser (two regular
    expressions run by a backtracking matcher), the conditional-compilation
    wrapper [add_cython_if], the three emitters and the line loop of
    [LineProcessor.run], followed by the properties of the specification
    that are settled against them.

    Text is modelled by [string]; a character is a code point below 256.
    Python exceptions are values of [exn]; the three output files are the
    three fields of [streams].  The interpreter is CPython 3 as it
    starts: a text file is read with universal newlines, and [int]
    refuses a text of more than 4300 digits. *)

From Stdlib Require Import String Ascii List Bool Arith NArith ZArith Lia.
From Stdlib Require Import DecimalString.
Import ListNotations.
Local Open Scope string_scope.

Set Implicit Arguments.

(* ------------------------------------------------------------------ *)
(** ** Exceptions                                                       *)
(* ------------------------------------------------------------------ *)

(** Every exception the source raises, and the one [int] raises for it,
    is a [ValueError]. *)
Inductive exn : Type :=
| ValueError (msg : string).

(** The outcome of a call: a value, or an exception raised. *)
Inductive res (A : Type) : Type :=
| Ok (a : A)
| Raise (e : exn).
Arguments Raise {A} e.

(* ------------------------------------------------------------------ *)
(** ** Characters and Python string methods                             *)
(* ------------------------------------------------------------------ *)

Module PyStr.

Definition chr (n : nat) : string := String (ascii_of_nat n) EmptyString.

(** The characters a Rocq string literal cannot hold conveniently. *)
Definition NL : string := chr 10.
Definition DQ : string := chr 34.
Definition TAB : string := chr 9.

(** [ord(c)] *)
Definition ord (c : ascii) : N := N_of_ascii c.

Definition in_range (lo hi : N) (c : ascii) : bool :=
  ((lo <=? ord c) && (ord c <=? hi))%N.

Definition is_digit : ascii -> bool := in_range 48 57.
Definition is_upper : ascii -> bool := in_range 65 90.
Definition is_lower : ascii -> bool := in_range 97 122.
Definition is_char (a c : ascii) : bool := Ascii.eqb a c.

(** [str.isspace] on one character, for code points below 256. *)
Definition is_space (c : ascii) : bool :=
  in_range 9 13 c || in_range 28 32 c
  || (ord c =? 133)%N || (ord c =? 160)%N.

(** [s.startswith(p)] *)
Fixpoint startswith (p s : string) : bool :=
  match p, s with
  | EmptyString, _ => true
  | String a p', String b s' => Ascii.eqb a b && startswith p' s'
  | String _ _, EmptyString => false
  end.

(** The text left after a leading [p], if [s] starts with [p]. *)
Fixpoint drop_prefix (p s : string) : option string :=
  match p, s with
  | EmptyString, _ => Some s
  | String a p', String b s' =>
      if Ascii.eqb a b then drop_prefix p' s' else None
  | String _ _, EmptyString => None
  end.

(** [p in s] for strings. *)
Fixpoint contains (p s : string) : bool :=
  startswith p s ||
  match s with
  | EmptyString => false
  | String _ s' => contains p s'
  end.

Fixpoint lstrip (s : string) : string :=
  match s with
  | EmptyString => EmptyString
  | String c s' => if is_space c then lstrip s' else s
  end.

Fixpoint rstrip (s : string) : string :=
  match s with
  | EmptyString => EmptyString
  | String c s' =>
      match rstrip s' with
      | EmptyString => if is_space c then EmptyString else String c EmptyString
      | r => String c r
      end
  end.

(** [s.strip()] *)
Definition strip (s : string) : string := rstrip (lstrip s).

(** [s.count(old)] for a non-empty [old]: the non-overlapping occurrences,
    left to right.  [skip] counts the characters of the occurrence just
    found that are still to be passed over. *)
Fixpoint count_from (old : string) (skip : nat) (s : string) : nat :=
  match s with
  | EmptyString => 0
  | String _ s' =>
      match skip with
      | S k => count_from old k s'
      | O =>
          if startswith old s
          then S (count_from old (String.length old - 1) s')
          else count_from old 0 s'
      end
  end.

Definition count (old s : string) : nat := count_from old 0 s.

(** [s.replace(old, new, maxcount)] for a non-empty [old]; a negative
    [maxcount] replaces every occurrence, as in Python. *)
Fixpoint replace_from (old new : string) (skip : nat) (left : Z) (s : string)
  : string :=
  match s with
  | EmptyString => EmptyString
  | String c s' =>
      match skip with
      | S k => replace_from old new k left s'
      | O =>
          if negb (left =? 0)%Z && startswith old s
          then new ++ replace_from old new (String.length old - 1)
                                   (if (left <? 0)%Z then left else left - 1)%Z s'
          else String c (replace_from old new 0 left s')
      end
  end.

Definition replace_n (old new : string) (maxcount : Z) (s : string) : string :=
  replace_from old new 0 maxcount s.

Definition replace (old new s : string) : string := replace_n old new (-1) s.

(** [s.split(sep)] for a non-empty [sep]: [cur] is the piece being read. *)
Fixpoint split_from (sep : string) (skip : nat) (cur : string) (s : string)
  : list string :=
  match s with
  | EmptyString => [cur]
  | String c s' =>
      match skip with
      | S k => split_from sep k cur s'
      | O =>
          if startswith sep s
          then cur :: split_from sep (String.length sep - 1) EmptyString s'
          else split_from sep 0 (cur ++ String c EmptyString) s'
      end
  end.

Definition split (sep s : string) : list string :=
  split_from sep 0 EmptyString s.

(** [sep.join(xs)] *)
Fixpoint join (sep : string) (xs : list string) : string :=
  match xs with
  | [] => EmptyString
  | [x] => x
  | x :: rest => x ++ sep ++ join sep rest
  end.

(** The number a string of ASCII digits writes in base ten. *)
Definition digit_val (c : ascii) : N := (ord c - 48)%N.

Fixpoint int_acc (acc : N) (s : string) : N :=
  match s with
  | EmptyString => acc
  | String c s' => int_acc (10 * acc + digit_val c)%N s'
  end.

Definition decimal (s : string) : N := int_acc 0 s.

(** [str(n)] for a non-negative integer of at most 4300 digits, as the
    numbers [int] returns are: [str] raises nothing for them. *)
Definition str_int (n : N) : string := NilEmpty.string_of_uint (N.to_uint n).

(** [sys.get_int_max_str_digits()], as the interpreter starts. *)
Definition int_max_str_digits : N := 4300.

(** The exception [int] raises for a string of [n] digits, [n] above the
    limit. *)
Definition int_limit_error (n : N) : exn :=
  ValueError ("Exceeds the limit (" ++ str_int int_max_str_digits ++
              " digits) for integer string conversion: value has " ++
              str_int n ++
              " digits; use sys.set_int_max_str_digits() to increase the limit").

(** [int(s)] on a string of ASCII digits, the only strings the source
    passes to it: the conversion is refused when the string holds more
    digits than the limit, leading zeros counted. *)
Definition int (s : string) : res N :=
  if (int_max_str_digits <? N.of_nat (String.length s))%N
  then Raise (int_limit_error (N.of_nat (String.length s)))
  else Ok (decimal s).

(** [str(t)] for a tuple of non-negative integers. *)
Definition str_tuple (t : list N) : string :=
  match t with
  | [] => "()"
  | [x] => "(" ++ str_int x ++ ",)"
  | _ => "(" ++ join ", " (map str_int t) ++ ")"
  end.

(** [str(b)] for a bool. *)
Definition str_bool (b : bool) : string := if b then "True" else "False".

(** [tmpl.format(...)]: replacement fields [{name}] are looked up with
    [field]; the templates of the source hold no doubled brace, no
    conversion and no format specification.  [cur] is the field name
    being read, if the scan is inside braces. *)
Fixpoint format_from (field : string -> string) (cur : option string)
  (tmpl : string) : string :=
  match tmpl with
  | EmptyString => EmptyString
  | String c t =>
      match cur with
      | None =>
          if is_char "{" c then format_from field (Some EmptyString) t
          else String c (format_from field None t)
      | Some f =>
          if is_char "}" c then field f ++ format_from field None t
          else format_from field (Some (f ++ String c EmptyString)) t
      end
  end.

Definition format (field : string -> string) (tmpl : string) : string :=
  format_from field None tmpl.

End PyStr.
Import PyStr.

(* ------------------------------------------------------------------ *)
(** ** Regular expressions, as Python's [re] runs them                  *)
(* ------------------------------------------------------------------ *)

Module Re.

(** The constructs the two patterns of the source use.  Every [*] and [+]
    of the source is applied to a character class, every [?] to a group. *)
Inductive regex : Type :=
| Lit (s : string)               (* literal text *)
| Cls (p : ascii -> bool)        (* one character of a class *)
| Star (p : ascii -> bool)       (* greedy [..]* *)
| Cat (r1 r2 : regex)            (* r1 then r2 *)
| Opt (r : regex)                (* greedy (..)? *)
| Grp (name : string) (r : regex).   (* (?P<name>..) *)

(** Greedy [..]+ *)
Definition Plus (p : ascii -> bool) : regex := Cat (Cls p) (Star p).

Infix "+++" := Cat (right associativity, at level 60).

(** The named groups that took part in a match, latest first. *)
Definition groups : Type := list (string * string).

Fixpoint group (name : string) (g : groups) : option string :=
  match g with
  | [] => None
  | (n, v) :: g' => if String.eqb n name then Some v else group name g'
  end.

(** The text between the start [s] of a match and what is left, [s']. *)
Definition consumed (s s' : string) : string :=
  substring 0 (String.length s - String.length s') s.

Section Matcher.
Variable R : Type.

(** Greedy repetition of a class: the longest run first, then shorter
    ones as the continuation [k] refuses them. *)
Fixpoint star_k (p : ascii -> bool) (s : string) (k : string -> option R)
  : option R :=
  match s with
  | String c s' =>
      if p c then
        match star_k p s' k with
        | Some x => Some x
        | None => k s
        end
      else k s
  | EmptyString => k s
  end.

(** The backtracking matcher, in continuation-passing style: [k] is the
    rest of the pattern; [None] sends the matcher back to the latest
    choice point. *)
Fixpoint match_k (r : regex) (s : string) (g : groups)
  (k : string -> groups -> option R) : option R :=
  match r with
  | Lit l =>
      match drop_prefix l s with
      | Some s' => k s' g
      | None => None
      end
  | Cls p =>
      match s with
      | String c s' => if p c then k s' g else None
      | EmptyString => None
      end
  | Star p => star_k p s (fun s' => k s' g)
  | Cat r1 r2 => match_k r1 s g (fun s' g' => match_k r2 s' g' k)
  | Opt r1 =>
      match match_k r1 s g k with
      | Some x => Some x
      | None => k s g
      end
  | Grp name r1 =>
      match_k r1 s g (fun s' g' => k s' ((name, consumed s s') :: g'))
  end.
End Matcher.

(** [r.match(s)]: a match anchored at the start of [s] only; the result is
    the groups and the text left after the match. *)
Definition match_ (r : regex) (s : string) : option (groups * string) :=
  match_k r s [] (fun s' g => Some (g, s')).

(** [r.fullmatch(s)]: a match that must reach the end of [s]. *)
Definition fullmatch (r : regex) (s : string) : option groups :=
  match_k r s []
    (fun s' g => match s' with EmptyString => Some g | _ => None end).

(** [r.findall(s)] for a pattern with the single group [name] that cannot
    match the empty string: the group of every match, scanning left to
    right, a new search starting where the last match ended.  [skip]
    counts the characters of the last match still to be passed over. *)
Fixpoint findall_from (r : regex) (name : string) (skip : nat) (s : string)
  : list string :=
  match s with
  | EmptyString => []
  | String _ s' =>
      match skip with
      | S k => findall_from r name k s'
      | O =>
          match match_ r s with
          | Some (g, rest) =>
              match group name g with Some v => v | None => EmptyString end
              :: findall_from r name
                   (String.length s - String.length rest - 1) s'
          | None => findall_from r name 0 s'
          end
      end
  end.

Definition findall (r : regex) (name : string) (s : string) : list string :=
  findall_from r name 0 s.

(** The named groups that take part in every match of a pattern. *)
Fixpoint binds (name : string) (r : regex) : bool :=
  match r with
  | Cat r1 r2 => binds name r1 || binds name r2
  | Grp n r1 => String.eqb n name || binds name r1
  | Lit _ | Cls _ | Star _ | Opt _ => false
  end.

(** The texts a pattern describes, whatever the order in which the matcher
    tries them. *)
Inductive lang : regex -> string -> Prop :=
| L_Lit : forall l, lang (Lit l) l
| L_Cls : forall (p : ascii -> bool) c,
    p c = true -> lang (Cls p) (String c EmptyString)
| L_Star_nil : forall p, lang (Star p) EmptyString
| L_Star_cons : forall (p : ascii -> bool) c s,
    p c = true -> lang (Star p) s -> lang (Star p) (String c s)
| L_Cat : forall r1 r2 s1 s2,
    lang r1 s1 -> lang r2 s2 -> lang (r1 +++ r2) (s1 ++ s2)
| L_Opt_skip : forall r, lang (Opt r) EmptyString
| L_Opt_take : forall r s, lang r s -> lang (Opt r) s
| L_Grp : forall name r s, lang r s -> lang (Grp name r) s.

(** [s] starts with a text of [r], and [P] holds of what follows. *)
Definition splits (r : regex) (s : string) (P : string -> Prop) : Prop :=
  exists s1 s2, s = s1 ++ s2 /\ lang r s1 /\ P s2.

(** A continuation whose success does not depend on the groups: the
    patterns have no back-reference. *)
Definition blind (R : Type) (k : string -> groups -> option R) : Prop :=
  forall s g1 g2, k s g1 = None -> k s g2 = None.

End Re.
Import Re.

(* ------------------------------------------------------------------ *)
(** ** class Line                                                       *)
(* ------------------------------------------------------------------ *)

(** Character classes of the patterns. *)
Definition sp : ascii -> bool := is_char " ".                  (* [ ] *)
Definition star : ascii -> bool := is_char "*".                (* \* *)
Definition alpha_ (c : ascii) : bool :=                        (* [a-zA-Z_] *)
  is_lower c || is_upper c || is_char "_" c.
Definition alnum_ (c : ascii) : bool :=                        (* [a-zA-Z0-9_] *)
  is_lower c || is_upper c || is_digit c || is_char "_" c.
Definition sigch (c : ascii) : bool :=                         (* [a-zA-Z0-9_,* ] *)
  is_lower c || is_upper c || is_digit c || is_char "_" c
  || is_char "," c || is_char "*" c || is_char " " c.
Definition sp_star (c : ascii) : bool :=                       (* [ *] *)
  is_char " " c || is_char "*" c.

(** [[0-9]+\.[0-9]+\.[0-9]+] *)
Definition VERSION : regex :=
  Plus is_digit +++ Lit "." +++ Plus is_digit +++ Lit "." +++ Plus is_digit.

(** [Line.PATTERN].  The pattern is compiled with [re.VERBOSE], so the
    white space between its pieces is no part of it.  Its unnamed groups
    are numbered groups, which [groupdict] does not report. *)
Definition PATTERN : regex :=
  Opt (Grp "mpi" (Lit "MPI" +++ Plus sp)) +++
  Opt (Grp "error" (Lit "ERROR" +++ Plus sp)) +++
  Opt (Grp "min_version" VERSION) +++
  Opt (Lit "-" +++ Grp "max_version" VERSION) +++
  Opt (Plus sp) +++
  (Grp "code" (Opt (Lit "unsigned" +++ Plus sp) +++
               Plus alpha_ +++ Star alnum_ +++ Star star) +++ Plus sp) +++
  (Grp "fname" (Plus alpha_ +++ Star alnum_) +++ Star sp) +++
  Lit "(" +++ Grp "sig" (Star sigch) +++ Lit ")".

(** [Line.SIG_PATTERN]; its only capturing group is [param]. *)
Definition SIG_PATTERN : regex :=
  Opt (Lit "unsigned" +++ Plus sp) +++
  (Plus alpha_ +++ Star alnum_ +++ Star star) +++
  Plus sp +++ Star sp_star +++
  Grp "param" (Plus alpha_ +++ Star alnum_).

(** The attributes of a [Line] object. *)
Record Line : Type := mkLine {
  mpi : bool;
  error : bool;
  min_version : option (list N);
  max_version : option (list N);
  code : string;
  fname : string;
  sig : string;
  args : string
}.

(** [tuple(int(x) for x in xs)]: the first exception ends the
    conversion. *)
Fixpoint ints (xs : list string) : res (list N) :=
  match xs with
  | [] => Ok []
  | x :: rest =>
      match int x with
      | Raise e => Raise e
      | Ok n =>
          match ints rest with
          | Raise e => Raise e
          | Ok ns => Ok (n :: ns)
          end
      end
  end.

(** [tuple(int(x) for x in v.split('.'))] *)
Definition version_tuple (v : string) : res (list N) := ints (split "." v).

(** The two statements that set a version attribute from its group:
    [None] stays [None], a text becomes its tuple. *)
Definition version_attr (v : option string) : res (option (list N)) :=
  match v with
  | None => Ok None
  | Some t =>
      match version_tuple t with
      | Raise e => Raise e
      | Ok tup => Ok (Some tup)
      end
  end.

(** A group that takes part in every match of [PATTERN]. *)
Definition part (name : string) (parts : groups) : string :=
  match group name parts with
  | Some v => v
  | None => EmptyString
  end.

(** The list [SIG_PATTERN.findall] returns for the signature [sig], once
    [const] is removed from it. *)
Definition sig_params (sig : string) : list string :=
  findall SIG_PATTERN "param" (replace "const" "" sig).

(** [Line.__init__(text)].  The minimum version is converted before the
    maximum one, and both before the signature is searched.  [findall]
    returns a list object, so the source's test [self.args is None] sees
    [Some] list. *)
Definition Line_init (text : string) : res Line :=
  match match_ PATTERN text with
  | None => Raise (ValueError ("Invalid line encountered: " ++ text))
  | Some (parts, _) =>
      match version_attr (group "min_version" parts) with
      | Raise e => Raise e
      | Ok min_v =>
          match version_attr (group "max_version" parts) with
          | Raise e => Raise e
          | Ok max_v =>
              let sig := part "sig" parts in
              match Some (sig_params sig) with
              | None =>
                  Raise (ValueError ("Invalid function signature: " ++ sig))
              | Some found =>
                  Ok {| mpi := match group "mpi" parts with
                               | Some _ => true
                               | None => false
                               end;
                        error := match group "error" parts with
                                 | Some _ => true
                                 | None => false
                                 end;
                        min_version := min_v;
                        max_version := max_v;
                        code := part "code" parts;
                        fname := part "fname" parts;
                        sig := sig;
                        args := join ", " found |}
              end
          end
      end
  end.

(* ------------------------------------------------------------------ *)
(** ** class LineProcessor                                              *)
(* ------------------------------------------------------------------ *)

(** Text made of the given lines, each ended by a newline. *)
Fixpoint unlines (ls : list string) : string :=
  match ls with
  | [] => EmptyString
  | l :: rest => l ++ NL ++ unlines rest
  end.

Definition warning : string :=
  "# Warning: this file is auto-generated from api_gen.py. DO NOT EDIT!".

Definition raw_preamble : string :=
  unlines [ "# cython: language_level=3"; "#"; warning; "#"; "";
            "include " ++ DQ ++ "config.pxi" ++ DQ;
            "from .api_types_hdf5 cimport *";
            "from .api_types_ext cimport *"; "" ].

Definition def_preamble : string :=
  unlines [ "# cython: language_level=3"; "#"; warning; "#"; "";
            "include " ++ DQ ++ "config.pxi" ++ DQ; "";
            "from .api_types_hdf5 cimport *";
            "from .api_types_ext cimport *"; "" ].

Definition imp_preamble : string :=
  unlines [ "# cython: language_level=3"; "#"; warning; "#"; "";
            "include " ++ DQ ++ "config.pxi" ++ DQ;
            "from .api_types_ext cimport *";
            "from .api_types_hdf5 cimport *"; "";
            "from . cimport _hdf5"; "";
            "from ._errors cimport set_exception" ].

(** The arguments of a [format] call: field name and printed value. *)
Definition lookup (fields : list (string * string)) (name : string) : string :=
  match group name fields with
  | Some v => v
  | None => EmptyString
  end.

Definition str_version (v : option (list N)) : string :=
  match v with
  | Some t => str_tuple t
  | None => "None"
  end.

(** The fields [{0.attr}] of a format call whose first argument is the
    line [l]. *)
Definition line_fields (l : Line) : list (string * string) :=
  [ ("0.mpi", str_bool (mpi l)); ("0.error", str_bool (error l));
    ("0.min_version", str_version (min_version l));
    ("0.max_version", str_version (max_version l));
    ("0.code", code l); ("0.fname", fname l); ("0.sig", sig l);
    ("0.args", args l) ].

(** The inner function [wrapif] of [add_cython_if]. *)
Definition wrapif (condition code : string) : string :=
  let code := replace_n NL (NL ++ "    ") (Z.of_nat (count NL code) - 1) code in
  format (lookup [("0", condition); ("1", code)]) ("IF {0}:" ++ NL ++ "    {1}").

(** [LineProcessor.add_cython_if]: wrap a block of code in the required
    "IF" checks. *)
Definition add_cython_if (l : Line) (block : string) : string :=
  let block := if mpi l then wrapif "MPI" block else block in
  match min_version l, max_version l with
  | Some _, Some _ =>
      wrapif (format (lookup (line_fields l))
                "HDF5_VERSION >= {0.min_version} and HDF5_VERSION <= {0.max_version}")
             block
  | Some _, None =>
      wrapif (format (lookup (line_fields l)) "HDF5_VERSION >= {0.min_version}")
             block
  | None, Some _ =>
      wrapif (format (lookup (line_fields l)) "HDF5_VERSION <= {0.max_version}")
             block
  | None, None => block
  end.

(** The three output files. *)
Record streams : Type := mkStreams {
  raw_defs : string;
  cython_defs : string;
  cython_imp : string
}.

(** A method of [LineProcessor]: it may write to the files and may raise;
    what was written before an exception stays written. *)
Definition M (A : Type) : Type := streams -> res A * streams.

Definition ret {A : Type} (a : A) : M A := fun st => (Ok a, st).

Definition raise {A : Type} (e : exn) : M A := fun st => (Raise e, st).

Definition bind {A B : Type} (m : M A) (f : A -> M B) : M B :=
  fun st =>
    match m st with
    | (Ok a, st') => f a st'
    | (Raise e, st') => (Raise e, st')
    end.

Notation "x <- m ;; k" := (bind m (fun x => k))
  (at level 61, m at next level, right associativity).
Notation "m ;; k" := (bind m (fun _ => k))
  (at level 61, right associativity).

Definition lift {A : Type} (r : res A) : M A := fun st => (r, st).

Definition raw_defs_write (t : string) : M unit :=
  fun st => (Ok tt, mkStreams (raw_defs st ++ t) (cython_defs st) (cython_imp st)).

Definition cython_defs_write (t : string) : M unit :=
  fun st => (Ok tt, mkStreams (raw_defs st) (cython_defs st ++ t) (cython_imp st)).

Definition cython_imp_write (t : string) : M unit :=
  fun st => (Ok tt, mkStreams (raw_defs st) (cython_defs st) (cython_imp st ++ t)).

(** [LineProcessor.write_raw_sig] *)
Definition write_raw_sig (l : Line) : M unit :=
  let raw_sig :=
    format (lookup (line_fields l)) ("{0.code} {0.fname}({0.sig}) except *" ++ NL) in
  let raw_sig := add_cython_if l raw_sig in
  let raw_sig :=
    join NL (map (fun x => match strip x with
                           | EmptyString => x
                           | _ => "  " ++ x
                           end)
                 (split NL raw_sig)) in
  raw_defs_write raw_sig.

(** [LineProcessor.write_cython_sig] *)
Definition write_cython_sig (l : Line) : M unit :=
  let cython_sig :=
    format (lookup (line_fields l))
           ("cdef {0.code} {0.fname}({0.sig}) except *" ++ NL) in
  cython_defs_write (add_cython_if l cython_sig).

(** [re.compile(r'H5[A-Z]+_[a-zA-Z_]+_t')] *)
Definition H5_TYPE : regex :=
  Lit "H5" +++ Plus is_upper +++ Lit "_" +++
  Plus (fun c => is_lower c || is_upper c || is_char "_" c) +++ Lit "_t".

(** [x in xs] for a tuple of strings. *)
Definition mem (x : string) (xs : list string) : bool :=
  existsb (String.eqb x) xs.

(** A Python value a format field may print. *)
Inductive value : Type :=
| Str (s : string)
| Int (n : N).

Definition str (v : value) : string :=
  match v with
  | Str s => s
  | Int n => str_int n
  end.

(** The tests of the first statement of [write_cython_imp], on the return
    type [code]. *)
Definition pointer_like (code : string) : bool :=
  contains "*" code || mem code ["H5T_conv_t"].

Definition signed_types : list string :=
  ["int"; "herr_t"; "htri_t"; "hid_t"; "hssize_t"; "ssize_t"].

Definition signed_like (code : string) : bool :=
  mem code signed_types
  || match match_ H5_TYPE code with Some _ => true | None => false end.

Definition unsigned_like (code : string) : bool :=
  mem code ["unsigned int"; "haddr_t"; "hsize_t"; "size_t"].

(** The first statement of [write_cython_imp]: the test and the return
    value to use with error reporting, [(condition, retval)]. *)
Definition classify (code : string) : res (string * value) :=
  if pointer_like code then Ok ("==NULL", Str "NULL")
  else if signed_like code then Ok ("<0", Str "-1")
  else if unsigned_like code then Ok ("==0", Int 0)
  else Raise (ValueError (replace_n "%s" code 1 "Return code <<%s>> unknown")).

(** The template of the wrapper implementation. *)
Definition imp_template : string :=
  unlines
    [ "cdef {0.code} {0.fname}({0.sig}) except *:";
      "    cdef {0.code} r";
      "    _hdf5.H5Eset_auto(NULL, NULL)";
      "    r = _hdf5.{0.fname}({0.args})";
      "    if r{condition}:";
      "        if set_exception():";
      "            return <{0.code}>{retval}";
      "        elif {0.error}:";
      "            raise RuntimeError(" ++ DQ ++
        "Unspecified error in {0.fname} (return value {condition})" ++ DQ ++ ")";
      "    return r";
      "" ].

(** The implementation of the wrapper of [l], before the "IF" checks. *)
Definition imp_text (l : Line) (condition : string) (retval : value) : string :=
  format (lookup (line_fields l ++
                  [("condition", condition); ("retval", str retval)]))
         imp_template.

(** [LineProcessor.write_cython_imp] *)
Definition write_cython_imp (l : Line) : M unit :=
  cr <- lift (classify (code l)) ;;
  let imp := imp_text l (fst cr) (snd cr) in
  cython_imp_write (add_cython_if l imp).

(** The test of the loop of [run] for a directive specifying a header
    file. *)
Definition is_header (text : string) : bool :=
  negb (startswith " " text) && negb (startswith "#" text)
  && (0 <? String.length (strip text))%nat.

(** The body of the loop of [LineProcessor.run], for one line [text] of
    the functions file. *)
Definition process_line (text : string) : M unit :=
  if is_header text then
    let inc := hd EmptyString (split ":" text) in
    raw_defs_write
      (replace_n "%s" inc 1 ("cdef extern from " ++ DQ ++ "%s.h" ++ DQ ++ ":" ++ NL))
  else
    let text := strip text in
    if (String.length text =? 0)%nat || startswith "#" text then ret tt
    else
      l <- lift (Line_init text) ;;
      write_raw_sig l ;;
      write_cython_sig l ;;
      write_cython_imp l.

Fixpoint for_lines (lines : list string) : M unit :=
  match lines with
  | [] => ret tt
  | text :: rest => process_line text ;; for_lines rest
  end.

(** What a file opened with [open(name, 'r')] gives for its decoded
    content: the newlines are universal, a carriage return followed by a
    line feed and a carriage return alone are both read as one line
    feed. *)
Fixpoint universal_newlines (content : string) : string :=
  match content with
  | EmptyString => EmptyString
  | String c rest =>
      if is_char "013" c then
        match rest with
        | String c' rest' =>
            if is_char "010" c' then String "010" (universal_newlines rest')
            else String "010" (universal_newlines rest)
        | EmptyString => String "010" EmptyString
        end
      else String c (universal_newlines rest)
  end.

(** The lines of a text with line feeds only: each keeps its line feed;
    the last one has none if the text does not end with one.  [cur] is
    the line being read. *)
Fixpoint lines_from (cur : string) (content : string) : list string :=
  match content with
  | EmptyString => match cur with EmptyString => [] | _ => [cur] end
  | String c rest =>
      if is_char "010" c then (cur ++ NL) :: lines_from EmptyString rest
      else lines_from (cur ++ String c EmptyString) rest
  end.

(** The lines a text file yields when iterated, for the decoded content
    of the file. *)
Definition file_lines (content : string) : list string :=
  lines_from EmptyString (universal_newlines content).

(** [LineProcessor.run], on the decoded content of [api_functions.txt],
    once the four files are open; the output files are opened empty. *)
Definition run (functions : string) : res unit * streams :=
  (raw_defs_write raw_preamble ;;
   cython_defs_write def_preamble ;;
   cython_imp_write imp_preamble ;;
   for_lines (file_lines functions))
  (mkStreams EmptyString EmptyString EmptyString).

(* ------------------------------------------------------------------ *)
(** ** Vocabulary of the properties                                     *)
(* ------------------------------------------------------------------ *)

(** The re-indentation [wrapif] applies to the code it wraps: every
    newline but the last one is followed by four spaces. *)
Definition indent (code : string) : string :=
  replace_n NL (NL ++ "    ") (Z.of_nat (count NL code) - 1) code.

(** The condition on the version of the library under which the line is
    available. *)
Definition version_guard (l : Line) : string :=
  match min_version l, max_version l with
  | Some lo, Some hi =>
      "HDF5_VERSION >= " ++ str_tuple lo ++
      " and HDF5_VERSION <= " ++ str_tuple hi
  | Some lo, None => "HDF5_VERSION >= " ++ str_tuple lo
  | None, Some hi => "HDF5_VERSION <= " ++ str_tuple hi
  | None, None => EmptyString
  end.

(** A block under the guard [condition]. *)
Definition guarded (condition block : string) : string :=
  "IF " ++ condition ++ ":" ++ NL ++ "    " ++ indent block.

(** The test of the loop of [run] for a function line: the line is no
    header directive and, once stripped, is neither empty nor a
    comment. *)
Definition is_function_line (text : string) : bool :=
  negb (is_header text)
  && negb ((String.length (strip text) =? 0)%nat || startswith "#" (strip text)).

(** The opening of an "extern" block for the header [inc]. *)
Definition extern_from (inc : string) : string :=
  "cdef extern from " ++ DQ ++ inc ++ ".h" ++ DQ ++ ":" ++ NL.

(** The line starts with a whitespace character. *)
Definition starts_with_whitespace (text : string) : bool :=
  match text with
  | String c _ => is_space c
  | EmptyString => false
  end.

(** Following the specification's words for the signed status types: two
    or more uppercase letters, an underscore, a lowercase identifier,
    [_t]. *)
Definition spec_status_pattern : regex :=
  Cls is_upper +++ Plus is_upper +++ Lit "_" +++
  (Cls (fun c => is_lower c || is_char "_" c) +++
   Star (fun c => is_lower c || is_digit c || is_char "_" c)) +++
  Lit "_t".

(** The output files as [run] opens them. *)
Definition no_output : streams := mkStreams EmptyString EmptyString EmptyString.

(** The two lines the specification works out, and the [Line] objects
    they are expected to give. *)
Definition foo_text : string := "MPI ERROR 1.8.12 int foo(char* a, size_t b)".

Definition foo_line : Line :=
  {| mpi := true; error := true;
     min_version := Some [1; 8; 12]%N; max_version := None;
     code := "int"; fname := "foo";
     sig := "char* a, size_t b"; args := "a, b" |}.

Definition bar_text : string := "hid_t bar(void)".

Definition bar_line : Line :=
  {| mpi := false; error := false;
     min_version := None; max_version := None;
     code := "hid_t"; fname := "bar";
     sig := "void"; args := "" |}.

(** A line with a parameter that has a type and no name. *)
Definition unnamed_text : string := "herr_t H5Xfoo(hid_t)".

Definition unnamed_line : Line :=
  {| mpi := false; error := false;
     min_version := None; max_version := None;
     code := "herr_t"; fname := "H5Xfoo"; sig := "hid_t"; args := "" |}.

(** A function line followed by more text. *)
Definition trailing_text : string := "int foo(int a) junk".

(** A function line whose return type is no known one. *)
Definition double_text : string := "  double foo()".

(** A function line whose minimum version ends with a number of 4301
    digits. *)
Definition long_version_text : string :=
  "1.8." ++ Nat.iter 4301 (String "1") EmptyString ++ " int foo()".

Definition double_line : Line :=
  {| mpi := false; error := false;
     min_version := None; max_version := None;
     code := "double"; fname := "foo"; sig := ""; args := "" |}.

(** A function line of the functions file, indented with a tab. *)
Definition tab_line : string := TAB ++ "herr_t H5open()" ++ NL.

(** A header directive without a colon, as the file yields it. *)
Definition bare_header : string := "hdf5_hl" ++ NL.

(* ------------------------------------------------------------------ *)
(** ** Vocabulary of the further properties                             *)
(* ------------------------------------------------------------------ *)

(** The patterns of the groups [code] and [fname] of [PATTERN]; the
    second one is the pattern of the group [param] of [SIG_PATTERN]
    too. *)
Definition CODE_RE : regex :=
  Opt (Lit "unsigned" +++ Plus sp) +++
  Plus alpha_ +++ Star alnum_ +++ Star star.

Definition IDENT_RE : regex := Plus alpha_ +++ Star alnum_.

(** The patterns of the groups named [name] in a pattern. *)
Fixpoint bodies (name : string) (r : regex) : list regex :=
  match r with
  | Cat r1 r2 => (bodies name r1 ++ bodies name r2)%list
  | Opt r1 => bodies name r1
  | Grp n r1 =>
      ((if String.eqb n name then [r1] else []) ++ bodies name r1)%list
  | Lit _ | Cls _ | Star _ => []
  end.

(** A group and its text, as a match of [r] may record them. *)
Definition captured (r : regex) (nv : string * string) : Prop :=
  exists b, In b (bodies (fst nv) r) /\ lang b (snd nv).

(** Every character of [s] is of the class [p]. *)
Fixpoint all_chars (p : ascii -> bool) (s : string) : bool :=
  match s with
  | EmptyString => true
  | String c s' => p c && all_chars p s'
  end.

(** An identifier: [[a-zA-Z_]] then [[a-zA-Z0-9_]*]. *)
Definition is_ident (s : string) : bool :=
  match s with
  | String c s' => alpha_ c && all_chars alnum_ s'
  | EmptyString => false
  end.

Definition not_newline (c : ascii) : bool := negb (is_char "010" c).

(** The text holds no newline. *)
Definition no_nl (s : string) : bool := all_chars not_newline s.

(** The text is made of whitespace only. *)
Definition blank (s : string) : bool := all_chars is_space s.

(** A property of characters that holds of the 256 of them. *)
Definition ascii_all (f : ascii -> bool) : bool :=
  forallb (fun n => f (ascii_of_nat n)) (seq 0 256).

(** The class [p] is included in the class [q]. *)
Definition subclass (p q : ascii -> bool) : bool :=
  ascii_all (fun c => implb (p c) (q c)).

(** Every text of the pattern is made of characters of the class [q]. *)
Fixpoint chars_in (q : ascii -> bool) (r : regex) : bool :=
  match r with
  | Lit l => all_chars q l
  | Cls p | Star p => subclass p q
  | Cat r1 r2 => chars_in q r1 && chars_in q r2
  | Opt r1 | Grp _ r1 => chars_in q r1
  end.



(** The text [v] is a part of the text [s]. *)
Definition occurs_in (v s : string) : Prop := exists a b, s = a ++ v ++ b.

(** The text holds a version number, one of the three numbers of which
    is written with [n] digits, more than [int] accepts. *)
Definition long_version (text : string) (n : N) : Prop :=
  exists v d,
    occurs_in v text /\ lang VERSION v /\ In d (split "." v)
    /\ n = N.of_nat (String.length d) /\ (int_max_str_digits < n)%N.

(** Any character but the closing parenthesis. *)
Definition not_close (c : ascii) : bool := negb (is_char ")" c).

(** The text holds no closing parenthesis. *)
Definition no_close (s : string) : bool := all_chars not_close s.

(** The texts of the pattern end with a closing parenthesis, their
    only one. *)
Fixpoint closes (r : regex) : bool :=
  match r with
  | Lit l => String.eqb l ")"
  | Cat r1 r2 => chars_in not_close r1 && closes r2
  | Cls _ | Star _ | Opt _ | Grp _ _ => false
  end.

(** Two continuations of the matcher that agree after a text without
    closing parenthesis, the one followed by [")" ++ t] and the other by
    [")" ++ t']. *)
Definition agree (R : Type) (t t' : string)
  (k k' : string -> groups -> option R) : Prop :=
  forall s g, no_close s = true -> k (s ++ ")" ++ t) g = k' (s ++ ")" ++ t') g.

(** The length of the shortest text of a pattern. *)
Fixpoint min_len (r : regex) : nat :=
  match r with
  | Lit l => String.length l
  | Cls _ => 1
  | Star _ | Opt _ => 0
  | Cat r1 r2 => min_len r1 + min_len r2
  | Grp _ r1 => min_len r1
  end.

(** The characters of a return type: those of an identifier, the space
    and the star. *)
Definition codech (c : ascii) : bool := alnum_ c || sp c || star c.

(** What [b] holds, written after what [a] holds. *)
Definition app_streams (a b : streams) : streams :=
  mkStreams (raw_defs a ++ raw_defs b) (cython_defs a ++ cython_defs b)
            (cython_imp a ++ cython_imp b).

Definition has_version (l : Line) : bool :=
  match min_version l, max_version l with
  | None, None => false
  | _, _ => true
  end.

(** The lines of a block under the "IF" checks of the line [l]: the
    check on the version, then the check on MPI, each one followed by
    what it guards, four spaces further to the right. *)
Definition guard_lines (l : Line) (ls : list string) : list string :=
  let inner := if mpi l then "IF MPI:" :: map (append "    ") ls else ls in
  if has_version l
  then ("IF " ++ version_guard l ++ ":") :: map (append "    ") inner
  else inner.

(** The declaration of the function of the line [l]. *)
Definition declaration (l : Line) : string :=
  code l ++ " " ++ fname l ++ "(" ++ sig l ++ ") except *".

(** The statements of the wrapper of the line [l], for the test
    [condition] and the error value [retval]. *)
Definition imp_lines (l : Line) (condition : string) (retval : value)
  : list string :=
  [ "cdef " ++ code l ++ " " ++ fname l ++ "(" ++ sig l ++ ") except *:";
    "    cdef " ++ code l ++ " r";
    "    _hdf5.H5Eset_auto(NULL, NULL)";
    "    r = _hdf5." ++ fname l ++ "(" ++ args l ++ ")";
    "    if r" ++ condition ++ ":";
    "        if set_exception():";
    "            return <" ++ code l ++ ">" ++ str retval;
    "        elif " ++ str_bool (error l) ++ ":";
    "            raise RuntimeError(" ++ DQ ++
      "Unspecified error in " ++ fname l ++
      " (return value " ++ condition ++ ")" ++ DQ ++ ")";
    "    return r";
    "" ].

(** A method that only appends to the files, and whose result and text do
    not depend on what the files hold. *)
Definition appends (A : Type) (m : M A) : Prop :=
  forall st,
    m st = (fst (m no_output), app_streams st (snd (m no_output))).

(** The files after the three preambles are written. *)
Definition preambles : streams :=
  mkStreams raw_preamble def_preamble imp_preamble.

(** The text is empty or starts with a character that is not of the
    class [p]. *)
Definition first_not (p : ascii -> bool) (s : string) : bool :=
  match s with
  | EmptyString => true
  | String c _ => negb (p c)
  end.

(** [k] stars. *)
Fixpoint stars (k : nat) : string :=
  match k with
  | O => EmptyString
  | S k' => String "*" (stars k')
  end.

(** A parameter written as a type name, [k] stars, one space and a
    name. *)
Record param : Type := mkParam {
  p_type : string;
  p_stars : nat;
  p_name : string
}.

Definition param_text (p : param) : string :=
  p_type p ++ stars (p_stars p) ++ " " ++ p_name p.

(** The type and the name are identifiers, and the type is not the word
    [unsigned]. *)
Definition param_ok (p : param) : bool :=
  is_ident (p_type p) && negb (String.eqb (p_type p) "unsigned")
  && is_ident (p_name p).

(** The signature that lists the parameters, separated by a comma and a
    space. *)
Definition sig_text (ps : list param) : string :=
  join ", " (map param_text ps).

(** A text of one or more decimal digits. *)
Definition digits (s : string) : bool :=
  match s with
  | EmptyString => false
  | String _ _ => all_chars is_digit s
  end.

(** A version, as its three numbers are written. *)
Definition vtext (v : string * string * string) : string :=
  fst (fst v) ++ "." ++ snd (fst v) ++ "." ++ snd v.

Definition vtuple (v : string * string * string) : list N :=
  [decimal (fst (fst v)); decimal (snd (fst v)); decimal (snd v)].

(** The text holds no more characters than [int] accepts digits. *)
Definition short_digits (s : string) : bool :=
  (N.of_nat (String.length s) <=? int_max_str_digits)%N.

(** None of the three numbers is written with more digits than [int]
    accepts. *)
Definition vshort (v : string * string * string) : bool :=
  short_digits (fst (fst v)) && short_digits (snd (fst v))
  && short_digits (snd v).

Definition vdigits (v : string * string * string) : bool :=
  digits (fst (fst v)) && digits (snd (fst v)) && digits (snd v).

(** A function line in its usual writing: the markers, each followed by
    one space; the versions, followed by one space; the return type, a
    type name and stars; one space; the name; the signature between
    parentheses. *)
Record plain_line : Type := mkPlain {
  pl_mpi : bool;
  pl_error : bool;
  pl_min : option (string * string * string);
  pl_max : option (string * string * string);
  pl_type : string;
  pl_stars : nat;
  pl_name : string;
  pl_sig : string
}.

Definition pl_versions (pl : plain_line) : string :=
  match pl_min pl, pl_max pl with
  | None, None => EmptyString
  | Some lo, None => vtext lo ++ " "
  | None, Some hi => "-" ++ vtext hi ++ " "
  | Some lo, Some hi => vtext lo ++ "-" ++ vtext hi ++ " "
  end.

Definition pl_text (pl : plain_line) : string :=
  (if pl_mpi pl then "MPI " else "") ++
  (if pl_error pl then "ERROR " else "") ++
  pl_versions pl ++
  pl_type pl ++ stars (pl_stars pl) ++ " " ++
  pl_name pl ++ "(" ++ pl_sig pl ++ ")".

(** The type name is an identifier other than the words of the grammar,
    the name is an identifier, the versions are made of digits, no more
    of them than [int] accepts, and the signature of the characters
    allowed between the parentheses. *)
Definition pl_ok (pl : plain_line) : bool :=
  is_ident (pl_type pl)
  && negb (mem (pl_type pl) ["MPI"; "ERROR"; "unsigned"])
  && is_ident (pl_name pl)
  && all_chars sigch (pl_sig pl)
  && match pl_min pl with Some v => vdigits v | None => true end
  && match pl_max pl with Some v => vdigits v | None => true end
  && match pl_min pl with Some v => vshort v | None => true end
  && match pl_max pl with Some v => vshort v | None => true end.

(** The [Line] the usual writing stands for. *)
Definition pl_line (pl : plain_line) : Line :=
  {| mpi := pl_mpi pl;
     error := pl_error pl;
     min_version := option_map vtuple (pl_min pl);
     max_version := option_map vtuple (pl_max pl);
     code := pl_type pl ++ stars (pl_stars pl);
     fname := pl_name pl;
     sig := pl_sig pl;
     args := join ", " (sig_params (pl_sig pl)) |}.

(** The end of [PATTERN]: the return type, the name and the signature. *)
Definition CORE_RE : regex :=
  (Grp "code" (Opt (Lit "unsigned" +++ Plus sp) +++
               Plus alpha_ +++ Star alnum_ +++ Star star) +++ Plus sp) +++
  (Grp "fname" (Plus alpha_ +++ Star alnum_) +++ Star sp) +++
  Lit "(" +++ Grp "sig" (Star sigch) +++ Lit ")".

(** The groups of the match of a line in its usual writing. *)
Definition pl_parts (pl : plain_line) : groups :=
  ([("sig", pl_sig pl); ("fname", pl_name pl);
    ("code", (pl_type pl ++ stars (pl_stars pl))%string)]
   ++ match pl_max pl with Some v => [("max_version", vtext v)] | None => [] end
   ++ match pl_min pl with Some v => [("min_version", vtext v)] | None => [] end
   ++ (if pl_error pl then [("error", "ERROR ")] else [])
   ++ (if pl_mpi pl then [("mpi", "MPI ")] else []))%list.

(* ------------------------------------------------------------------ *)
(** ** What the matcher accepts                                         *)
(* ------------------------------------------------------------------ *)

Module ReFacts.

Create HintDb re.
#[export] Hint Constructors lang : re.

Lemma append_assoc (a b c : string) : (a ++ b) ++ c = a ++ b ++ c.
Proof. induction a; simpl; congruence. Qed.

Lemma append_nil_r (a : string) : a ++ EmptyString = a.
Proof. induction a; simpl; congruence. Qed.

Lemma append_inv_head (a b c : string) : a ++ b = a ++ c -> b = c.
Proof. induction a; simpl; [auto | intros [= E]; auto]. Qed.

Lemma drop_prefix_app (l s s' : string) :
  drop_prefix l s = Some s' <-> s = l ++ s'.
Proof.
  revert s; induction l as [|a l IH]; intros s; simpl.
  - split; [intros [= ->]; reflexivity | intros ->; reflexivity].
  - destruct s as [|b s]; [split; discriminate|].
    destruct (Ascii.eqb_spec a b) as [->|Hne].
    + rewrite IH. split; [intros ->; reflexivity | intros [= ->]; reflexivity].
    + split; [discriminate | intros [= E _]; congruence].
Qed.

Lemma startswith_app (p s : string) : startswith p (p ++ s) = true.
Proof.
  induction p as [|a p IH]; simpl; [reflexivity|].
  now rewrite Ascii.eqb_refl, IH.
Qed.

Section StarFacts.
Variable R : Type.

Lemma star_k_spec (p : ascii -> bool) (k : string -> option R) (s : string) :
  star_k p s k <> None <-> splits (Star p) s (fun s2 => k s2 <> None).
Proof.
  induction s as [|c s IH]; simpl.
  - split.
    + intros H. exists EmptyString, EmptyString. auto with re.
    + intros (s1 & s2 & E & _ & H).
      destruct s1; [|discriminate]. simpl in E. now subst s2.
  - destruct (p c) eqn:Hc.
    + destruct (star_k p s k) eqn:Hs.
      * split; [intros _ | discriminate].
        destruct IH as [IH _].
        destruct IH as (s1 & s2 & -> & L & H); [discriminate|].
        exists (String c s1), s2. auto with re.
      * split.
        -- intros H. exists EmptyString, (String c s). auto with re.
        -- intros (s1 & s2 & E & L & H).
           destruct s1 as [|c1 s1]; simpl in E; [now subst s2|].
           injection E as -> ->. inversion L; subst.
           exfalso. apply (proj2 IH); [|reflexivity].
           exists s1, s2. auto.
    + split.
      * intros H. exists EmptyString, (String c s). auto with re.
      * intros (s1 & s2 & E & L & H).
        destruct s1 as [|c1 s1]; simpl in E; [now subst s2|].
        injection E as -> ->. inversion L; subst. congruence.
Qed.

(** A result of the repetition is a result of its continuation. *)
Lemma star_k_result (p : ascii -> bool) (k : string -> option R) (s : string)
  (x : R) :
  star_k p s k = Some x -> exists s', k s' = Some x.
Proof.
  induction s as [|c s IH]; simpl; [eauto|].
  destruct (p c); [|eauto].
  destruct (star_k p s k) eqn:E; [|eauto].
  intros [= ->]. auto.
Qed.

(** The matcher succeeds exactly when the text starts with a text of the
    pattern after which the continuation succeeds. *)
Lemma match_k_spec (r : regex) :
  forall (s : string) (g : groups) (k : string -> groups -> option R),
    blind k ->
    (match_k r s g k <> None <-> splits r s (fun s2 => k s2 g <> None)).
Proof.
  induction r as [l|p|p|r1 IH1 r2 IH2|r IH|name r IH]; intros s g k Hk; simpl.
  - destruct (drop_prefix l s) as [s'|] eqn:E.
    + apply drop_prefix_app in E as ->. split.
      * intros H. exists l, s'. auto with re.
      * intros (s1 & s2 & E & L & H). inversion L; subst.
        apply append_inv_head in E. now subst s2.
    + split; [congruence|].
      intros (s1 & s2 & -> & L & H). inversion L; subst.
      now rewrite (proj2 (drop_prefix_app s1 _ s2) eq_refl) in E.
  - destruct s as [|c s].
    + split; [congruence|]. intros (s1 & s2 & E & L & _).
      inversion L; subst. discriminate.
    + destruct (p c) eqn:Hc.
      * split.
        -- intros H. exists (String c EmptyString), s. auto with re.
        -- intros (s1 & s2 & E & L & H). inversion L; subst.
           now injection E as -> ->.
      * split; [congruence|]. intros (s1 & s2 & E & L & _).
        inversion L; subst. injection E as -> ->. congruence.
  - apply star_k_spec.
  - assert (Hk2 : blind (fun s' g' => match_k r2 s' g' k)).
    { intros s' g1 g2 H.
      destruct (match_k r2 s' g2 k) eqn:E; [|reflexivity].
      exfalso. assert (N : match_k r2 s' g2 k <> None) by congruence.
      apply (IH2 _ _ _ Hk) in N. destruct N as (s1 & s2 & -> & L & N).
      assert (N1 : match_k r2 (s1 ++ s2) g1 k <> None).
      { apply (IH2 _ _ _ Hk). exists s1, s2. repeat split; auto.
        intros C. apply N. exact (Hk _ _ _ C). }
      congruence. }
    rewrite (IH1 _ _ _ Hk2). split.
    + intros (s1 & s2 & -> & L1 & H). apply (IH2 _ _ _ Hk) in H.
      destruct H as (s3 & s4 & -> & L2 & H).
      exists (s1 ++ s3), s4. rewrite append_assoc. auto with re.
    + intros (s1 & s2 & -> & L & H). inversion L; subst.
      exists s0, (s3 ++ s2). rewrite append_assoc. repeat split; auto.
      apply (IH2 _ _ _ Hk). exists s3, s2. auto.
  - destruct (match_k r s g k) eqn:E.
    + split; [intros _ | congruence].
      assert (N : match_k r s g k <> None) by congruence.
      apply (IH _ _ _ Hk) in N. destruct N as (s1 & s2 & -> & L & N).
      exists s1, s2. auto with re.
    + split.
      * intros H. exists EmptyString, s. auto with re.
      * intros (s1 & s2 & -> & L & H). inversion L; subst; [exact H|].
        exfalso. apply (proj2 (IH (s1 ++ s2) g k Hk)); [|exact E].
        exists s1, s2. auto.
  - assert (Hk1 : blind (fun s' g' => k s' ((name, consumed s s') :: g'))).
    { intros s' g1 g2 H. exact (Hk _ _ _ H). }
    rewrite (IH _ _ _ Hk1). split.
    + intros (s1 & s2 & -> & L & H). exists s1, s2. repeat split; auto with re.
      intros C. apply H. exact (Hk _ _ _ C).
    + intros (s1 & s2 & -> & L & H). inversion L; subst.
      exists s1, s2. repeat split; auto.
      intros C. apply H. exact (Hk _ _ _ C).
Qed.

(** A result of the matcher is a result of its continuation, called with
    the groups it had, and with those every match of the pattern sets. *)
Lemma match_k_result (r : regex) :
  forall (s : string) (g : groups) (k : string -> groups -> option R) (x : R),
    match_k r s g k = Some x ->
    exists s' g',
      k s' g' = Some x
      /\ forall n, group n g <> None \/ binds n r = true -> group n g' <> None.
Proof.
  induction r as [l|p|p|r1 IH1 r2 IH2|r IH|name r IH]; intros s g k x; simpl.
  - destruct (drop_prefix l s) as [s'|]; [|discriminate].
    intros H. exists s', g. split; [exact H|]. intros n [N|N]; [exact N|discriminate].
  - destruct s as [|c s]; [discriminate|]. destruct (p c); [|discriminate].
    intros H. exists s, g. split; [exact H|]. intros n [N|N]; [exact N|discriminate].
  - intros H. apply star_k_result in H as [s' H].
    exists s', g. split; [exact H|]. intros n [N|N]; [exact N|discriminate].
  - intros H. apply IH1 in H as (s1 & g1 & H & G1).
    apply IH2 in H as (s2 & g2 & H & G2).
    exists s2, g2. split; [exact H|]. intros n [N|N].
    + apply G2. left. apply G1. now left.
    + apply orb_true_iff in N as [N|N].
      * apply G2. left. apply G1. now right.
      * apply G2. now right.
  - destruct (match_k r s g k) eqn:E.
    + intros [= ->]. apply IH in E as (s1 & g1 & H & G1).
      exists s1, g1. split; [exact H|]. intros n [N|N]; [|discriminate].
      apply G1. now left.
    + intros H. exists s, g. split; [exact H|].
      intros n [N|N]; [exact N|discriminate].
  - intros H. apply IH in H as (s1 & g1 & H & G1).
    exists s1, ((name, consumed s s1) :: g1). split; [exact H|].
    intros n N. cbn [group]. destruct (String.eqb name n) eqn:En; [discriminate|].
    apply G1. destruct N as [N|N]; [now left | right; exact N].
Qed.
End StarFacts.

(** [match] accepts a text exactly when one of its prefixes is a text of
    the pattern. *)
Lemma match_prefix (r : regex) (s : string) :
  match_ r s <> None <-> exists pre rest, s = pre ++ rest /\ lang r pre.
Proof.
  unfold match_. rewrite match_k_spec by (intros ? ? ?; discriminate).
  split.
  - intros (s1 & s2 & E & L & _). now exists s1, s2.
  - intros (s1 & s2 & E & L). exists s1, s2. repeat split; auto. discriminate.
Qed.

(** [fullmatch] accepts exactly the texts of the pattern. *)
Lemma fullmatch_lang (r : regex) (s : string) :
  fullmatch r s <> None <-> lang r s.
Proof.
  unfold fullmatch. rewrite match_k_spec.
  - split.
    + intros (s1 & s2 & -> & L & H). destruct s2; [|congruence].
      now rewrite append_nil_r.
    + intros L. exists s, EmptyString. rewrite append_nil_r.
      repeat split; auto. discriminate.
  - intros s' g1 g2. destruct s'; [discriminate | reflexivity].
Qed.

(** The groups a pattern always sets are set in the result of [match]. *)
Lemma match_binds (r : regex) (s rest : string) (g : groups) (n : string) :
  match_ r s = Some (g, rest) -> binds n r = true -> group n g <> None.
Proof.
  unfold match_. intros H B.
  apply match_k_result in H as (s' & g' & [= -> ->] & G). apply G. now right.
Qed.

End ReFacts.
Import ReFacts.

(* ------------------------------------------------------------------ *)
(** ** Parsing a line                                                   *)
(* ------------------------------------------------------------------ *)

(** The return type, the name and the signature take part in every match
    of [PATTERN]: [part] never falls back on the empty string for them. *)
Lemma PATTERN_parts (text rest : string) (parts : groups) :
  match_ PATTERN text = Some (parts, rest) ->
  group "code" parts = Some (part "code" parts)
  /\ group "fname" parts = Some (part "fname" parts)
  /\ group "sig" parts = Some (part "sig" parts).
Proof.
  intros H. unfold part.
  pose proof (@match_binds _ _ _ _ "code" H eq_refl).
  pose proof (@match_binds _ _ _ _ "fname" H eq_refl).
  pose proof (@match_binds _ _ _ _ "sig" H eq_refl).
  destruct (group "code" parts), (group "fname" parts), (group "sig" parts);
    try congruence. auto.
Qed.

(** C2 fails as stated: text after the closing parenthesis is accepted,
    although the whole line is no text of the pattern. *)
Lemma trailing_text_accepted :
  Line_init trailing_text =
    Ok {| mpi := false; error := false;
          min_version := None; max_version := None;
          code := "int"; fname := "foo"; sig := "int a"; args := "a" |}
  /\ ~ lang PATTERN trailing_text.
Proof.
  split; [vm_compute; reflexivity|].
  intros L. apply fullmatch_lang in L. apply L. vm_compute. reflexivity.
Qed.

(** The only exception of [int] is the one for too many digits. *)
Lemma int_raise (s : string) (e : exn) :
  int s = Raise e ->
  e = int_limit_error (N.of_nat (String.length s))
  /\ (int_max_str_digits < N.of_nat (String.length s))%N.
Proof.
  unfold int.
  destruct (N.ltb_spec int_max_str_digits (N.of_nat (String.length s)));
    [|discriminate].
  intros [= <-]. auto.
Qed.

Lemma int_short (s : string) :
  (N.of_nat (String.length s) <= int_max_str_digits)%N ->
  int s = Ok (decimal s).
Proof.
  unfold int. intros H.
  destruct (N.ltb_spec int_max_str_digits (N.of_nat (String.length s)));
    [lia | reflexivity].
Qed.

(** An exception of the conversion of a list is the exception of one of
    its texts. *)
Lemma ints_raise (xs : list string) (e : exn) :
  ints xs = Raise e -> exists x, In x xs /\ int x = Raise e.
Proof.
  induction xs as [|x xs IH]; cbn [ints]; [discriminate|].
  destruct (int x) as [n|e1] eqn:E1.
  - destruct (ints xs) as [ns|e2]; [discriminate|].
    intros [= <-]. destruct (IH eq_refl) as (y & Hy & Ey).
    exists y. split; [now right | exact Ey].
  - intros [= <-]. exists x. split; [now left | exact E1].
Qed.

Lemma ints_length (xs : list string) (ns : list N) :
  ints xs = Ok ns -> List.length ns = List.length xs.
Proof.
  revert ns. induction xs as [|x xs IH]; intros ns; cbn [ints].
  - now intros [= <-].
  - destruct (int x) as [n|]; [|discriminate].
    destruct (ints xs) as [ms|]; [|discriminate].
    intros [= <-]. simpl. now rewrite (IH ms eq_refl).
Qed.

Lemma version_attr_raise (v : option string) (e : exn) :
  version_attr v = Raise e ->
  exists t x, v = Some t /\ In x (split "." t) /\ int x = Raise e.
Proof.
  unfold version_attr. destruct v as [t|]; [|discriminate].
  destruct (version_tuple t) as [tup|e1] eqn:E; [discriminate|].
  intros [= <-]. apply ints_raise in E as (x & Hx & Ex). eauto.
Qed.

Lemma version_attr_ok (v : option string) (t : list N) :
  version_attr v = Ok (Some t) ->
  exists x, v = Some x /\ version_tuple x = Ok t.
Proof.
  unfold version_attr. destruct v as [x|]; [|discriminate].
  destruct (version_tuple x) as [tup|] eqn:E; [|discriminate].
  intros [= <-]. exists x. split; [reflexivity | exact E].
Qed.

(** Every exception of [Line.__init__] is the one for a line that does
    not match or one of [int]. *)
Lemma Line_init_raise (text : string) (e : exn) :
  Line_init text = Raise e ->
  e = ValueError ("Invalid line encountered: " ++ text)
  \/ exists n, (int_max_str_digits < n)%N /\ e = int_limit_error n.
Proof.
  unfold Line_init. destruct (match_ PATTERN text) as [[parts rest]|].
  - destruct (version_attr (group "min_version" parts)) as [lo|e1] eqn:E1.
    + destruct (version_attr (group "max_version" parts)) as [hi|e2] eqn:E2;
        [discriminate|].
      intros [= <-]. right.
      apply version_attr_raise in E2 as (t & x & _ & _ & Ex).
      apply int_raise in Ex as [-> Hn]. eauto.
    + intros [= <-]. right.
      apply version_attr_raise in E1 as (t & x & _ & _ & Ex).
      apply int_raise in Ex as [-> Hn]. eauto.
  - intros [= <-]. now left.
Qed.

(** A version number of 4301 digits makes [int] raise, although the line
    is a text of the pattern. *)
Example long_version_rejected :
  Line_init long_version_text = Raise (int_limit_error 4301)
  /\ fullmatch PATTERN long_version_text <> None.
Proof. split; [vm_compute; reflexivity | vm_compute; discriminate]. Qed.

(** The second [raise] of [Line.__init__] is never reached. *)
Lemma Line_init_no_signature_error (text sig : string) :
  Line_init text <> Raise (ValueError ("Invalid function signature: " ++ sig)).
Proof.
  intros H. apply Line_init_raise in H as [H | (n & _ & H)].
  - cbn [append] in H. discriminate H.
  - unfold int_limit_error in H. cbn [append] in H. discriminate H.
Qed.

(** C3, on the code: a parameter list that is not empty and in which no
    parameter name is found raises nothing; the line gets an empty
    argument list, and its wrapper calls the native function with no
    argument. *)
Theorem unnamed_parameter_not_rejected :
  Line_init unnamed_text = Ok unnamed_line
  /\ sig unnamed_line = "hid_t"
  /\ sig_params (sig unnamed_line) = []
  /\ contains "    r = _hdf5.H5Xfoo()"
       (cython_imp (snd (process_line ("  " ++ unnamed_text ++ NL) no_output)))
     = true.
Proof. repeat split; vm_compute; reflexivity. Qed.

(** C7: the line [MPI ERROR 1.8.12 int foo(char* a, size_t b)] parses to
    the descriptor with both markers set, minimum version (1, 8, 12), no
    maximum version, return type [int], name [foo], and the parameter
    names [a] then [b], which the descriptor keeps joined as ["a, b"]. *)
Theorem foo_line_descriptor :
  Line_init foo_text = Ok foo_line
  /\ sig_params (sig foo_line) = ["a"; "b"]
  /\ args foo_line = join ", " ["a"; "b"].
Proof. repeat split; vm_compute; reflexivity. Qed.

(* ------------------------------------------------------------------ *)
(** ** Conditional-compilation wrapping                                 *)
(* ------------------------------------------------------------------ *)

Lemma wrapif_guarded (condition block : string) :
  wrapif condition block = guarded condition block.
Proof.
  unfold guarded. rewrite <- (append_nil_r (indent block)). reflexivity.
Qed.

Lemma min_guard_text (l : Line) :
  format (lookup (line_fields l)) "HDF5_VERSION >= {0.min_version}"
  = "HDF5_VERSION >= " ++ str_version (min_version l).
Proof.
  rewrite <- (append_nil_r (str_version _)). reflexivity.
Qed.

Lemma max_guard_text (l : Line) :
  format (lookup (line_fields l)) "HDF5_VERSION <= {0.max_version}"
  = "HDF5_VERSION <= " ++ str_version (max_version l).
Proof.
  rewrite <- (append_nil_r (str_version _)). reflexivity.
Qed.

Lemma both_guard_text (l : Line) :
  format (lookup (line_fields l))
    "HDF5_VERSION >= {0.min_version} and HDF5_VERSION <= {0.max_version}"
  = "HDF5_VERSION >= " ++ str_version (min_version l) ++
    " and HDF5_VERSION <= " ++ str_version (max_version l).
Proof.
  rewrite <- (append_nil_r (str_version (max_version l))). reflexivity.
Qed.

(** What [add_cython_if] returns, guard by guard. *)
Lemma add_cython_if_guards (l : Line) (block : string) :
  add_cython_if l block =
  let inner := if mpi l then guarded "MPI" block else block in
  match min_version l, max_version l with
  | None, None => inner
  | _, _ => guarded (version_guard l) inner
  end.
Proof.
  unfold add_cython_if, version_guard.
  rewrite !wrapif_guarded, min_guard_text, max_guard_text, both_guard_text.
  destruct (min_version l), (max_version l); reflexivity.
Qed.

(** C1, as the code has it: when the line requires MPI and has a version
    bound, the guard on MPI is applied first, to the block itself, and the
    guard on the version is wrapped around the result; the version guard
    is the outermost one and the MPI guard is nested inside it. *)
Theorem version_guard_outermost (l : Line) (block : string) :
  mpi l = true ->
  min_version l <> None \/ max_version l <> None ->
  add_cython_if l block = wrapif (version_guard l) (wrapif "MPI" block)
  /\ add_cython_if l block =
     "IF " ++ version_guard l ++ ":" ++ NL ++
     "    " ++ indent ("IF MPI:" ++ NL ++ "    " ++ indent block).
Proof.
  intros Hmpi Hv.
  assert (E : add_cython_if l block
              = guarded (version_guard l) (guarded "MPI" block)).
  { rewrite add_cython_if_guards, Hmpi. cbv zeta.
    destruct (min_version l), (max_version l); try reflexivity.
    destruct Hv; congruence. }
  split; [now rewrite !wrapif_guarded | exact E].
Qed.

Lemma version_guard_outermost_witness :
  mpi foo_line = true
  /\ (min_version foo_line <> None \/ max_version foo_line <> None)
  /\ add_cython_if foo_line ("body" ++ NL) =
     "IF " ++ version_guard foo_line ++ ":" ++ NL ++
     "    " ++ indent ("IF MPI:" ++ NL ++ "    " ++ indent ("body" ++ NL)).
Proof.
  split; [reflexivity|]. split; [left; discriminate|].
  apply (version_guard_outermost foo_line ("body" ++ NL));
    [reflexivity | left; discriminate].
Defined.

(** C1 fails as stated: the declaration written for the line of [foo] has
    the guard on the version outside and the guard on MPI inside it, and a
    block wrapped for that line differs from the block with the MPI guard
    outermost. *)
Lemma capability_guard_not_outermost :
  write_cython_sig foo_line no_output =
    (Ok tt,
     mkStreams EmptyString
       ("IF HDF5_VERSION >= (1, 8, 12):" ++ NL ++
        "    IF MPI:" ++ NL ++
        "        cdef int foo(char* a, size_t b) except *" ++ NL)
       EmptyString)
  /\ add_cython_if foo_line ("body" ++ NL) <>
     wrapif "MPI" (wrapif (version_guard foo_line) ("body" ++ NL)).
Proof.
  split; [vm_compute; reflexivity | vm_compute; discriminate].
Qed.

(* ------------------------------------------------------------------ *)
(** ** The wrapper implementation                                       *)
(* ------------------------------------------------------------------ *)

Ltac flatten_text :=
  unfold unlines, NL, DQ, chr;
  repeat (progress (rewrite ?append_assoc; cbn [append])).

(** The template, once its fields are filled in. *)
Lemma imp_template_filled (m e lo hi c f s a cond rv : string) :
  format
    (lookup ([ ("0.mpi", m); ("0.error", e);
               ("0.min_version", lo); ("0.max_version", hi);
               ("0.code", c); ("0.fname", f); ("0.sig", s); ("0.args", a) ]
             ++ [("condition", cond); ("retval", rv)]))
    imp_template =
  unlines
    [ "cdef " ++ c ++ " " ++ f ++ "(" ++ s ++ ") except *:";
      "    cdef " ++ c ++ " r";
      "    _hdf5.H5Eset_auto(NULL, NULL)";
      "    r = _hdf5." ++ f ++ "(" ++ a ++ ")";
      "    if r" ++ cond ++ ":";
      "        if set_exception():";
      "            return <" ++ c ++ ">" ++ rv;
      "        elif " ++ e ++ ":";
      "            raise RuntimeError(" ++ DQ ++ "Unspecified error in " ++ f ++
        " (return value " ++ cond ++ ")" ++ DQ ++ ")";
      "    return r";
      "" ].
Proof. flatten_text. reflexivity. Qed.

(** The three outcomes of the classification of the return type. *)
Lemma classify_cases (code condition : string) (retval : value) :
  classify code = Ok (condition, retval) ->
  (condition, retval) = ("==NULL", Str "NULL")
  \/ (condition, retval) = ("<0", Str "-1")
  \/ (condition, retval) = ("==0", Int 0).
Proof.
  unfold classify.
  destruct (pointer_like code); [intros [= <- <-]; auto|].
  destruct (signed_like code); [intros [= <- <-]; auto|].
  destruct (unsigned_like code); [intros [= <- <-]; auto | discriminate].
Qed.

(** C6: for a line that parsed and whose return type is classified, with
    test [condition], the implementation written (under the "IF" checks of the line) is,
    statement after statement: the declaration of the result [r]; the
    call [H5Eset_auto(NULL, NULL)] that silences the native error
    handler; the call of the native function on the extracted arguments;
    the test of [r]; under it, first the call of [set_exception], which
    returns the error value of the classification ([NULL], [-1] or [0])
    when it raised, and only then, under [elif True] when the line has
    the [ERROR] flag and under [elif False] when it has not, the generic
    [RuntimeError] that names the function and the test; and last,
    outside the test, [return r]. *)
Theorem wrapper_implementation_protocol
  (text : string) (l : Line) (condition : string) (retval : value)
  (st : streams) :
  Line_init text = Ok l ->
  classify (code l) = Ok (condition, retval) ->
  exists sentinel,
    In (condition, sentinel) [("==NULL", "NULL"); ("<0", "-1"); ("==0", "0")]
    /\ write_cython_imp l st =
       (Ok tt,
        mkStreams (raw_defs st) (cython_defs st)
          (cython_imp st ++
           add_cython_if l
             (unlines
                [ "cdef " ++ code l ++ " " ++ fname l ++ "(" ++ sig l ++ ") except *:";
                  "    cdef " ++ code l ++ " r";
                  "    _hdf5.H5Eset_auto(NULL, NULL)";
                  "    r = _hdf5." ++ fname l ++ "(" ++ args l ++ ")";
                  "    if r" ++ condition ++ ":";
                  "        if set_exception():";
                  "            return <" ++ code l ++ ">" ++ sentinel;
                  "        elif " ++ (if error l then "True" else "False") ++ ":";
                  "            raise RuntimeError(" ++ DQ ++
                    "Unspecified error in " ++ fname l ++
                    " (return value " ++ condition ++ ")" ++ DQ ++ ")";
                  "    return r";
                  "" ]))).
Proof.
  intros _ Hc. exists (str retval). split.
  - destruct (classify_cases _ Hc) as [E | [E | E]]; injection E as -> ->;
      cbn; auto.
  - unfold write_cython_imp, bind, lift, cython_imp_write.
    rewrite Hc. cbn [fst snd]. unfold imp_text, line_fields.
    rewrite imp_template_filled. now destruct (error l).
Qed.

Lemma wrapper_implementation_protocol_witness :
  (Line_init foo_text = Ok foo_line
   /\ classify (code foo_line) = Ok ("<0", Str "-1")
   /\ cython_imp (snd (write_cython_imp foo_line no_output))
      = unlines
          [ "IF HDF5_VERSION >= (1, 8, 12):";
            "    IF MPI:";
            "        cdef int foo(char* a, size_t b) except *:";
            "            cdef int r";
            "            _hdf5.H5Eset_auto(NULL, NULL)";
            "            r = _hdf5.foo(a, b)";
            "            if r<0:";
            "                if set_exception():";
            "                    return <int>-1";
            "                elif True:";
            "                    raise RuntimeError(" ++ DQ ++
              "Unspecified error in foo (return value <0)" ++ DQ ++ ")";
            "            return r";
            "        " ])
  /\ (Line_init bar_text = Ok bar_line
      /\ classify (code bar_line) = Ok ("<0", Str "-1")
      /\ cython_imp (snd (write_cython_imp bar_line no_output))
         = unlines
             [ "cdef hid_t bar(void) except *:";
               "    cdef hid_t r";
               "    _hdf5.H5Eset_auto(NULL, NULL)";
               "    r = _hdf5.bar()";
               "    if r<0:";
               "        if set_exception():";
               "            return <hid_t>-1";
               "        elif False:";
               "            raise RuntimeError(" ++ DQ ++
                 "Unspecified error in bar (return value <0)" ++ DQ ++ ")";
               "    return r";
               "" ]).
Proof.
  split; (split; [reflexivity|]); (split; [reflexivity|]).
  - destruct (@wrapper_implementation_protocol foo_text foo_line "<0"
                (Str "-1") no_output eq_refl eq_refl)
      as (sentinel & Hin & ->).
    destruct Hin as [[= <-] | [[= <-] | [[= <-] | []]]]. reflexivity.
  - destruct (@wrapper_implementation_protocol bar_text bar_line "<0"
                (Str "-1") no_output eq_refl eq_refl)
      as (sentinel & Hin & ->).
    destruct Hin as [[= <-] | [[= <-] | [[= <-] | []]]]. reflexivity.
Defined.

(** C8: the line [hid_t bar(void)] parses without any exception, no
    parameter name is found in it, and the implementation written for it
    calls the native function with zero arguments. *)
Theorem bar_line_zero_arguments :
  Line_init bar_text = Ok bar_line
  /\ sig_params (sig bar_line) = []
  /\ args bar_line = EmptyString
  /\ write_cython_imp bar_line no_output =
     (Ok tt,
      mkStreams EmptyString EmptyString
        (unlines
           [ "cdef hid_t bar(void) except *:";
             "    cdef hid_t r";
             "    _hdf5.H5Eset_auto(NULL, NULL)";
             "    r = _hdf5.bar()";
             "    if r<0:";
             "        if set_exception():";
             "            return <hid_t>-1";
             "        elif False:";
             "            raise RuntimeError(" ++ DQ ++
               "Unspecified error in bar (return value <0)" ++ DQ ++ ")";
             "    return r";
             "" ])).
Proof. repeat split; vm_compute; reflexivity. Qed.

(** A run on a small functions file: the raw definitions it writes. *)
Example run_small_file :
  raw_defs
    (snd (run (unlines [ "# === H5 ==="; "hdf5:"; "  herr_t H5open()"; "";
                         "  " ++ foo_text ])))
  = raw_preamble ++
    unlines [ "cdef extern from " ++ DQ ++ "hdf5.h" ++ DQ ++ ":";
              "  herr_t H5open() except *";
              "  IF HDF5_VERSION >= (1, 8, 12):";
              "      IF MPI:";
              "          int foo(char* a, size_t b) except *" ].
Proof. vm_compute. reflexivity. Qed.

(** The lines of a file whose lines end in three ways. *)
Example file_lines_newlines :
  file_lines ("a" ++ chr 13 ++ NL ++ "b" ++ chr 13 ++ "c" ++ NL ++ chr 13 ++ "d")
  = ["a" ++ NL; "b" ++ NL; "c" ++ NL; NL; "d"].
Proof. vm_compute. reflexivity. Qed.

(* ------------------------------------------------------------------ *)
(** ** Classification of the return type                                *)
(* ------------------------------------------------------------------ *)

Lemma contains_middle (p a b : string) : contains p (a ++ p ++ b) = true.
Proof.
  induction a as [|c a IH]; cbn [append].
  - destruct (p ++ b) eqn:E; cbn [contains]; rewrite <- E, startswith_app;
      reflexivity.
  - cbn [contains]. rewrite IH. apply orb_true_r.
Qed.

Lemma unknown_message (code : string) :
  replace_n "%s" code 1 "Return code <<%s>> unknown"
  = "Return code <<" ++ code ++ ">> unknown".
Proof. reflexivity. Qed.

Lemma process_function_line (text : string) :
  is_function_line text = true ->
  process_line text =
  (l <- lift (Line_init (strip text)) ;;
   write_raw_sig l ;; write_cython_sig l ;; write_cython_imp l).
Proof.
  unfold is_function_line, process_line. intros H.
  apply andb_true_iff in H as [H1 H2].
  apply negb_true_iff in H1, H2. now rewrite H1, H2.
Qed.

(** C4, as the code has it: a function line whose return type passes none
    of the three tests makes the run raise the [ValueError] whose message
    is [Return code <<T>> unknown] for the return type [T]; the message
    names the return type, and nothing is written to the implementation
    file for the line. *)
Theorem unknown_return_type_raises (text : string) (l : Line) (st : streams) :
  is_function_line text = true ->
  Line_init (strip text) = Ok l ->
  pointer_like (code l) = false ->
  signed_like (code l) = false ->
  unsigned_like (code l) = false ->
  fst (process_line text st)
    = Raise (ValueError ("Return code <<" ++ code l ++ ">> unknown"))
  /\ contains (code l) ("Return code <<" ++ code l ++ ">> unknown") = true
  /\ cython_imp (snd (process_line text st)) = cython_imp st.
Proof.
  intros Hf Hl Hp Hs Hu.
  rewrite (process_function_line _ Hf).
  unfold bind, lift, write_raw_sig, write_cython_sig, write_cython_imp,
    raw_defs_write, cython_defs_write, classify.
  rewrite Hl, Hp, Hs, Hu, unknown_message. cbn [fst snd cython_imp].
  repeat split. apply (contains_middle (code l) "Return code <<" ">> unknown").
Qed.

Lemma unknown_return_type_raises_witness :
  fst (process_line double_text no_output)
    = Raise (ValueError "Return code <<double>> unknown").
Proof.
  apply (@unknown_return_type_raises double_text double_line no_output);
    reflexivity.
Defined.

(** C4 fails as stated: the message for [double foo()] names the return
    type and not the function. *)
Lemma unknown_return_message_omits_function :
  fst (process_line double_text no_output)
    = Raise (ValueError "Return code <<double>> unknown")
  /\ contains "double" "Return code <<double>> unknown" = true
  /\ contains "foo" "Return code <<double>> unknown" = false.
Proof. repeat split; vm_compute; reflexivity. Qed.

(** C5, as the code has it: a return type of the fixed set of signed
    types, or one the pointer test does not take and that starts with a
    text of [H5[A-Z]+_[a-zA-Z_]+_t], is tested with [<0] and reported
    with [-1]. *)
Theorem signed_status_classification (code : string) :
  In code signed_types
  \/ (pointer_like code = false
      /\ exists pre rest, code = pre ++ rest /\ lang H5_TYPE pre) ->
  classify code = Ok ("<0", Str "-1").
Proof.
  intros [H | [Hp H]].
  - unfold signed_types in H.
    repeat (destruct H as [<- | H]; [reflexivity|]). destruct H.
  - apply match_prefix in H. unfold classify, signed_like. rewrite Hp.
    destruct (match_ H5_TYPE code); [|congruence].
    now rewrite orb_true_r.
Qed.

Lemma signed_status_classification_witness :
  classify "herr_t" = Ok ("<0", Str "-1")
  /\ classify "H5T_class_t" = Ok ("<0", Str "-1").
Proof.
  split.
  - apply signed_status_classification. left. cbn. tauto.
  - apply signed_status_classification. right. split; [reflexivity|].
    exists "H5T_class_t", EmptyString. split; [reflexivity|].
    apply fullmatch_lang. vm_compute. discriminate.
Defined.

(** C5 fails as stated: [AB_c_t] is two uppercase letters, an underscore,
    a lowercase identifier and [_t], and it is no known return type. *)
Lemma spec_status_pattern_unknown :
  lang spec_status_pattern "AB_c_t"
  /\ classify "AB_c_t" = Raise (ValueError "Return code <<AB_c_t>> unknown").
Proof.
  split; [|vm_compute; reflexivity].
  apply fullmatch_lang. vm_compute. discriminate.
Qed.

(* ------------------------------------------------------------------ *)
(** ** Header directives                                                *)
(* ------------------------------------------------------------------ *)

Lemma extern_from_text (inc : string) :
  replace_n "%s" inc 1 ("cdef extern from " ++ DQ ++ "%s.h" ++ DQ ++ ":" ++ NL)
  = extern_from inc.
Proof. reflexivity. Qed.

(** What a header directive does to the files. *)
Lemma process_header (text : string) (st : streams) :
  is_header text = true ->
  process_line text st =
  (Ok tt,
   mkStreams (raw_defs st ++ extern_from (hd EmptyString (split ":" text)))
             (cython_defs st) (cython_imp st)).
Proof.
  intros H. unfold process_line. rewrite H, extern_from_text. reflexivity.
Qed.

(** The first piece [split] returns is the text before the first
    occurrence of the colon. *)
Lemma split_colon_head (s cur : string) :
  exists pre rest,
    s = pre ++ rest
    /\ contains ":" pre = false
    /\ (rest = EmptyString \/ startswith ":" rest = true)
    /\ hd EmptyString (split_from ":" 0 cur s) = cur ++ pre.
Proof.
  revert cur; induction s as [|c s IH]; intros cur.
  - exists EmptyString, EmptyString. cbn. rewrite append_nil_r. auto.
  - cbn [split_from startswith]. destruct (Ascii.eqb ":" c) eqn:Ec.
    + exists EmptyString, (String c s). rewrite append_nil_r.
      repeat split; auto. right. cbn [startswith]. now rewrite Ec.
    + destruct (IH (cur ++ String c EmptyString))
        as (pre & rest & E & Hc & Hr & Hh).
      exists (String c pre), rest. cbn [andb]. rewrite Hh, append_assoc.
      repeat split; auto.
      * cbn. now rewrite E.
      * cbn [contains startswith]. now rewrite Ec, Hc.
Qed.

Lemma contains_app_r (p a b : string) :
  contains p b = true -> contains p (a ++ b) = true.
Proof.
  intros H. induction a as [|c a IH]; cbn [append]; [exact H|].
  cbn [contains]. rewrite IH. apply orb_true_r.
Qed.

Lemma startswith_contains (p s : string) :
  startswith p s = true -> contains p s = true.
Proof. intros H. destruct s; cbn [contains]; now rewrite H. Qed.

Lemma length_zero (s : string) : String.length s = 0 <-> s = EmptyString.
Proof. destruct s; cbn; split; congruence. Qed.

Lemma is_header_iff (text : string) :
  is_header text = true <->
  startswith " " text = false /\ startswith "#" text = false
  /\ strip text <> EmptyString.
Proof.
  unfold is_header. rewrite !andb_true_iff, !negb_true_iff, Nat.ltb_lt.
  rewrite <- length_zero. split.
  - intros [[H1 H2] H3]. repeat split; auto. lia.
  - intros (H1 & H2 & H3). repeat split; auto. lia.
Qed.

(** C9 fails as stated: a line that starts with a tab starts with
    whitespace, and it is read as a header directive. *)
Lemma tab_line_is_header :
  starts_with_whitespace tab_line = true
  /\ is_header tab_line = true
  /\ process_line tab_line no_output =
     (Ok tt,
      mkStreams ("cdef extern from " ++ DQ ++ TAB ++ "herr_t H5open()" ++ NL ++
                 ".h" ++ DQ ++ ":" ++ NL)
                EmptyString EmptyString).
Proof. repeat split; vm_compute; reflexivity. Qed.

(** C10: for a header directive, the name written between the quotes of
    the "extern" opening is the text of the line, as read and not
    stripped, up to its first colon, the colon left out; when the line
    has no colon the name is the whole line, with the newline that ends
    it. *)
Theorem header_name_before_colon (text : string) (st : streams) :
  is_header text = true ->
  exists inc rest,
    text = inc ++ rest
    /\ contains ":" inc = false
    /\ (rest = EmptyString \/ startswith ":" rest = true)
    /\ (contains ":" text = false -> inc = text)
    /\ process_line text st =
       (Ok tt,
        mkStreams (raw_defs st ++
                   "cdef extern from " ++ DQ ++ inc ++ ".h" ++ DQ ++ ":" ++ NL)
                  (cython_defs st) (cython_imp st)).
Proof.
  intros H. rewrite (process_header _ _ H). unfold split.
  destruct (split_colon_head text EmptyString)
    as (pre & rest & E & Hc & Hr & Hh).
  exists pre, rest. cbn [append] in Hh. rewrite Hh.
  repeat split; auto.
  intros Hn. destruct Hr as [-> | Hr].
  - now rewrite append_nil_r in E.
  - apply startswith_contains in Hr.
    apply (contains_app_r _ pre) in Hr. congruence.
Qed.

Lemma header_name_before_colon_witness :
  is_header bare_header = true
  /\ process_line bare_header no_output =
     (Ok tt,
      mkStreams ("cdef extern from " ++ DQ ++ "hdf5_hl" ++ NL ++
                 ".h" ++ DQ ++ ":" ++ NL)
                EmptyString EmptyString).
Proof.
  split; [reflexivity|].
  destruct (@header_name_before_colon bare_header no_output eq_refl)
    as (inc & rest & _ & _ & _ & Hn & Hp).
  rewrite Hp, (Hn eq_refl). reflexivity.
Defined.

(* ------------------------------------------------------------------ *)
(** ** What the groups of a match hold                                  *)
(* ------------------------------------------------------------------ *)

Lemma length_append (a b : string) :
  String.length (a ++ b) = String.length a + String.length b.
Proof. induction a; simpl; congruence. Qed.

Lemma substring_prefix (a b : string) :
  substring 0 (String.length a) (a ++ b) = a.
Proof.
  induction a as [|c a IH]; simpl.
  - destruct b; reflexivity.
  - now rewrite IH.
Qed.

Lemma consumed_app (a b : string) : consumed (a ++ b) b = a.
Proof.
  unfold consumed. rewrite length_append.
  replace (String.length a + String.length b - String.length b)
    with (String.length a) by lia.
  apply substring_prefix.
Qed.

Lemma captured_Cat_l (r1 r2 : regex) (nv : string * string) :
  captured r1 nv -> captured (r1 +++ r2) nv.
Proof.
  intros (b & Hb & L). exists b. split; [|exact L].
  cbn [bodies]. apply in_or_app. now left.
Qed.

Lemma captured_Cat_r (r1 r2 : regex) (nv : string * string) :
  captured r2 nv -> captured (r1 +++ r2) nv.
Proof.
  intros (b & Hb & L). exists b. split; [|exact L].
  cbn [bodies]. apply in_or_app. now right.
Qed.

Section Captures.
Variable R : Type.

(** A result of the repetition comes from the continuation, called after
    a run of characters of the class. *)
Lemma star_k_split (p : ascii -> bool) (k : string -> option R) (s : string)
  (x : R) :
  star_k p s k = Some x ->
  exists s1 s', s = s1 ++ s' /\ lang (Star p) s1 /\ k s' = Some x.
Proof.
  induction s as [|c s IH]; simpl.
  - intros H. exists EmptyString, EmptyString. auto with re.
  - destruct (p c) eqn:Hc.
    + destruct (star_k p s k) eqn:E.
      * intros [= ->]. destruct (IH eq_refl) as (s1 & s' & -> & L & H).
        exists (String c s1), s'. auto with re.
      * intros H. exists EmptyString, (String c s). auto with re.
    + intros H. exists EmptyString, (String c s). auto with re.
Qed.

(** A result of the matcher comes from the continuation, called after a
    text of the pattern and with, on top of the groups it had, groups of
    the pattern that hold texts of their own patterns. *)
Lemma match_k_captures (r : regex) :
  forall (s : string) (g : groups) (k : string -> groups -> option R) (x : R),
    match_k r s g k = Some x ->
    exists s1 s' g1,
      s = s1 ++ s' /\ lang r s1 /\ k s' (g1 ++ g)%list = Some x
      /\ Forall (captured r) g1.
Proof.
  induction r as [l|p|p|r1 IH1 r2 IH2|r IH|name r IH]; intros s g k x; simpl.
  - destruct (drop_prefix l s) as [s'|] eqn:E; [|discriminate].
    apply drop_prefix_app in E as ->. intros H.
    exists l, s', []. auto with re.
  - destruct s as [|c s]; [discriminate|].
    destruct (p c) eqn:Hc; [|discriminate].
    intros H. exists (String c EmptyString), s, []. auto with re.
  - intros H. apply star_k_split in H as (s1 & s' & -> & L & H).
    exists s1, s', []. auto.
  - intros H. apply IH1 in H as (s1 & s' & g1 & -> & L1 & H & F1).
    apply IH2 in H as (s2 & s'' & g2 & -> & L2 & H & F2).
    exists (s1 ++ s2), s'', (g2 ++ g1)%list.
    rewrite append_assoc, <- app_assoc. repeat split; auto with re.
    apply Forall_app. split.
    + eapply Forall_impl; [|exact F2]. intros nv. apply captured_Cat_r.
    + eapply Forall_impl; [|exact F1]. intros nv. apply captured_Cat_l.
  - destruct (match_k r s g k) eqn:E.
    + intros [= ->]. apply IH in E as (s1 & s' & g1 & -> & L & H & F).
      exists s1, s', g1. repeat split; auto with re.
    + intros H. exists EmptyString, s, []. auto with re.
  - intros H. apply IH in H as (s1 & s' & g1 & -> & L & H & F).
    rewrite consumed_app in H.
    exists s1, s', ((name, s1) :: g1). repeat split; auto with re.
    constructor.
    + exists r. split; [|exact L]. cbn [bodies fst].
      rewrite String.eqb_refl. now left.
    + eapply Forall_impl; [|exact F]. intros nv (b & Hb & Lb).
      exists b. split; [|exact Lb]. cbn [bodies]. apply in_or_app. now right.
Qed.
End Captures.

Lemma group_In (n v : string) (g : groups) :
  group n g = Some v -> In (n, v) g.
Proof.
  induction g as [|[m w] g IH]; cbn [group]; [discriminate|].
  destruct (String.eqb_spec m n) as [->|Hne].
  - intros [= ->]. now left.
  - intros H. right. auto.
Qed.

(** What [match] returns: the text left follows a text of the pattern,
    and every group holds a text of its own pattern. *)
Lemma match_groups (r : regex) (s rest : string) (g : groups) :
  match_ r s = Some (g, rest) ->
  (exists pre, s = pre ++ rest /\ lang r pre)
  /\ forall n v, group n g = Some v ->
                 exists b, In b (bodies n r) /\ lang b v.
Proof.
  unfold match_. intros H.
  apply match_k_captures in H as (s1 & s' & g1 & -> & L & [= <- <-] & F).
  split; [now exists s1|].
  intros n v Hn. apply group_In in Hn. rewrite app_nil_r in Hn.
  rewrite Forall_forall in F. exact (F _ Hn).
Qed.

(* ------------------------------------------------------------------ *)
(** ** The characters of the texts of a pattern                         *)
(* ------------------------------------------------------------------ *)

Lemma ascii_all_spec (f : ascii -> bool) :
  ascii_all f = true -> forall c, f c = true.
Proof.
  unfold ascii_all. rewrite forallb_forall. intros H c.
  rewrite <- (ascii_nat_embedding c). apply H.
  apply in_seq. pose proof (nat_ascii_bounded c). lia.
Qed.

Lemma subclass_spec (p q : ascii -> bool) :
  subclass p q = true -> forall c, p c = true -> q c = true.
Proof.
  intros H c Hp. pose proof (@ascii_all_spec (fun c => implb (p c) (q c)) H c) as Hc.
  cbv beta in Hc. now rewrite Hp in Hc.
Qed.

Lemma all_chars_app (p : ascii -> bool) (a b : string) :
  all_chars p (a ++ b) = all_chars p a && all_chars p b.
Proof.
  induction a as [|c a IH]; simpl; [reflexivity|].
  now rewrite IH, andb_assoc.
Qed.

Lemma all_chars_weaken (p q : ascii -> bool) (s : string) :
  (forall c, p c = true -> q c = true) ->
  all_chars p s = true -> all_chars q s = true.
Proof.
  intros Hpq. induction s as [|c s IH]; simpl; [reflexivity|].
  rewrite !andb_true_iff. intros [H1 H2]. auto.
Qed.

Lemma lang_Star_chars (p : ascii -> bool) (s : string) :
  lang (Star p) s <-> all_chars p s = true.
Proof.
  split.
  - intros L. remember (Star p) as r eqn:Er.
    induction L; inversion Er; subst; simpl; [reflexivity|].
    rewrite H. auto.
  - induction s as [|c s IH]; simpl; [auto with re|].
    rewrite andb_true_iff. intros [H1 H2]. auto with re.
Qed.

(** The texts of a pattern are made of the characters of its literals
    and of its classes. *)
Lemma lang_chars (q : ascii -> bool) (r : regex) (s : string) :
  chars_in q r = true -> lang r s -> all_chars q s = true.
Proof.
  intros Hq L. revert Hq. induction L; cbn [chars_in]; intros Hq.
  - exact Hq.
  - simpl. now rewrite (@subclass_spec _ _ Hq _ H).
  - reflexivity.
  - simpl. rewrite (@subclass_spec _ _ Hq _ H). simpl. auto.
  - apply andb_true_iff in Hq as [Hq1 Hq2].
    rewrite all_chars_app. rewrite IHL1, IHL2; auto.
  - reflexivity.
  - auto.
  - auto.
Qed.

(** No text of a pattern is shorter than [min_len] says. *)
Lemma lang_min_len (r : regex) (s : string) :
  lang r s -> min_len r <= String.length s.
Proof.
  intros L. induction L; cbn [min_len]; simpl; try lia.
  rewrite length_append. lia.
Qed.

Lemma lang_Cat_inv (r1 r2 : regex) (s : string) :
  lang (r1 +++ r2) s ->
  exists s1 s2, s = s1 ++ s2 /\ lang r1 s1 /\ lang r2 s2.
Proof. intros L. inversion L; subst. eauto. Qed.

Lemma lang_Cls_inv (p : ascii -> bool) (s : string) :
  lang (Cls p) s -> exists c, s = String c EmptyString /\ p c = true.
Proof. intros L. inversion L; subst. eauto. Qed.

Lemma lang_Lit_inv (l s : string) : lang (Lit l) s -> s = l.
Proof. intros L. now inversion L. Qed.

Lemma lang_Opt_inv (r : regex) (s : string) :
  lang (Opt r) s -> s = EmptyString \/ lang r s.
Proof. intros L. inversion L; subst; auto. Qed.

Lemma lang_Plus_inv (p : ascii -> bool) (s : string) :
  lang (Plus p) s ->
  exists c s', s = String c s' /\ p c = true /\ all_chars p s' = true.
Proof.
  intros L. apply lang_Cat_inv in L as (s1 & s2 & -> & L1 & L2).
  apply lang_Cls_inv in L1 as (c & -> & Hc). apply lang_Star_chars in L2.
  exists c, s2. auto.
Qed.

(** A text of the pattern of identifiers is an identifier. *)
Lemma lang_IDENT (s : string) : lang IDENT_RE s <-> is_ident s = true.
Proof.
  split.
  - intros L. apply lang_Cat_inv in L as (s1 & s2 & -> & L1 & L2).
    apply lang_Plus_inv in L1 as (c & s' & -> & Hc & Hs).
    apply lang_Star_chars in L2. simpl. rewrite Hc, all_chars_app, L2.
    rewrite (all_chars_weaken alpha_ alnum_ s'); auto.
    apply subclass_spec. reflexivity.
  - destruct s as [|c s]; [discriminate|]. simpl.
    rewrite andb_true_iff. intros [H1 H2].
    change (String c s) with ((String c EmptyString ++ EmptyString) ++ s).
    unfold IDENT_RE, Plus. repeat constructor; auto.
    now apply lang_Star_chars.
Qed.

(* ------------------------------------------------------------------ *)
(** ** The attributes of a line                                         *)
(* ------------------------------------------------------------------ *)

(** The attributes of a [Line], from the groups of the match. *)
Lemma Line_init_parts (text : string) (l : Line) :
  Line_init text = Ok l ->
  exists parts rest,
    match_ PATTERN text = Some (parts, rest)
    /\ group "code" parts = Some (code l)
    /\ group "fname" parts = Some (fname l)
    /\ group "sig" parts = Some (sig l)
    /\ version_attr (group "min_version" parts) = Ok (min_version l)
    /\ version_attr (group "max_version" parts) = Ok (max_version l)
    /\ args l = join ", " (sig_params (sig l)).
Proof.
  unfold Line_init.
  destruct (match_ PATTERN text) as [[parts rest]|] eqn:E; [|discriminate].
  destruct (version_attr (group "min_version" parts)) as [lo|] eqn:Elo;
    [|discriminate].
  destruct (version_attr (group "max_version" parts)) as [hi|] eqn:Ehi;
    [|discriminate].
  intros [= <-]. exists parts, rest. cbn [code fname sig min_version max_version args].
  destruct (@PATTERN_parts _ _ _ E) as (H1 & H2 & H3).
  repeat split; auto.
Qed.

Lemma Line_init_langs (text : string) (l : Line) :
  Line_init text = Ok l ->
  lang CODE_RE (code l) /\ lang IDENT_RE (fname l)
  /\ lang (Star sigch) (sig l).
Proof.
  intros H. apply Line_init_parts in H
    as (parts & rest & M & Hc & Hf & Hs & _).
  apply match_groups in M as [_ G].
  destruct (G _ _ Hc) as (b1 & [<- | []] & L1).
  destruct (G _ _ Hf) as (b2 & [<- | []] & L2).
  destruct (G _ _ Hs) as (b3 & [<- | []] & L3).
  auto.
Qed.

(** X1: in every [Line] the parser builds, the name of the function is an
    identifier, the return type starts with a letter or an underscore and
    is made of the characters of identifiers, spaces and stars, and the
    signature is made of the characters the pattern allows between the
    parentheses; none of them is empty but, possibly, the signature. *)
Theorem Line_attributes_well_formed (text : string) (l : Line) :
  Line_init text = Ok l ->
  is_ident (fname l) = true
  /\ (exists c rest, code l = String c rest /\ alpha_ c = true)
  /\ all_chars codech (code l) = true
  /\ all_chars sigch (sig l) = true.
Proof.
  intros H. apply Line_init_langs in H as (Lc & Lf & Ls).
  split; [now apply lang_IDENT|]. split; [|split].
  - apply lang_Cat_inv in Lc as (s0 & s1 & -> & L0 & L1).
    apply lang_Cat_inv in L1 as (s2 & s3 & -> & L2 & _).
    apply lang_Plus_inv in L2 as (c & s' & -> & Hc & _).
    apply lang_Opt_inv in L0 as [-> | L0].
    + exists c, (s' ++ s3). auto.
    + apply lang_Cat_inv in L0 as (u & w & -> & Lu & _).
      apply lang_Lit_inv in Lu as ->.
      eexists _, _. split; [reflexivity | reflexivity].
  - exact (@lang_chars codech CODE_RE _ eq_refl Lc).
  - now apply lang_Star_chars.
Qed.

Lemma Line_attributes_well_formed_witness :
  is_ident (fname foo_line) = true
  /\ all_chars codech (code foo_line) = true.
Proof.
  destruct (@Line_attributes_well_formed foo_text foo_line eq_refl)
    as (H1 & _ & H2 & _).
  auto.
Defined.

(** The pieces [split] makes of a text are those between the
    separators. *)
Lemma split_from_run (d : ascii) (cur run s : string) :
  all_chars (fun c => negb (Ascii.eqb d c)) run = true ->
  split_from (String d EmptyString) 0 cur (run ++ s)
  = split_from (String d EmptyString) 0 (cur ++ run) s.
Proof.
  revert cur. induction run as [|c run IH]; intros cur; simpl.
  - now rewrite append_nil_r.
  - intros H. apply andb_true_iff in H as [H1 H2].
    apply negb_true_iff in H1. rewrite H1. cbn [andb].
    rewrite IH by exact H2. now rewrite append_assoc.
Qed.

Lemma split_from_sep (d : ascii) (cur s : string) :
  split_from (String d EmptyString) 0 cur (String d s)
  = cur :: split_from (String d EmptyString) 0 EmptyString s.
Proof. simpl. now rewrite Ascii.eqb_refl. Qed.

(** A version text is split into its three numbers. *)
Lemma split_version (v : string) :
  lang VERSION v ->
  exists d1 d2 d3, v = d1 ++ "." ++ d2 ++ "." ++ d3
                   /\ split "." v = [d1; d2; d3]
                   /\ Forall (fun d => all_chars is_digit d = true)
                        [d1; d2; d3].
Proof.
  intros L. unfold VERSION in L.
  apply lang_Cat_inv in L as (d1 & r1 & -> & L1 & L).
  apply lang_Cat_inv in L as (p1 & r2 & -> & Lp1 & L).
  apply lang_Cat_inv in L as (d2 & r3 & -> & L2 & L).
  apply lang_Cat_inv in L as (p2 & d3 & -> & Lp2 & L3).
  apply lang_Lit_inv in Lp1 as ->. apply lang_Lit_inv in Lp2 as ->.
  assert (D : forall d, lang (Plus is_digit) d ->
                        all_chars (fun c => negb (Ascii.eqb "." c)) d = true).
  { intros d Ld. exact (@lang_chars (fun c => negb (Ascii.eqb "." c)) (Plus is_digit) d eq_refl Ld). }
  exists d1, d2, d3. split; [reflexivity|]. split.
  - unfold split.
    rewrite (@split_from_run "." _ _ _ (D _ L1)). cbn [append].
    rewrite split_from_sep.
    rewrite (@split_from_run "." _ _ _ (D _ L2)). cbn [append].
    rewrite split_from_sep.
    pose proof (@split_from_run "." EmptyString d3 EmptyString (D _ L3)) as E3.
    rewrite append_nil_r in E3. rewrite E3. reflexivity.
  - repeat constructor;
      [exact (@lang_chars is_digit (Plus is_digit) d1 eq_refl L1)
      |exact (@lang_chars is_digit (Plus is_digit) d2 eq_refl L2)
      |exact (@lang_chars is_digit (Plus is_digit) d3 eq_refl L3)].
Qed.

(** A version text gives, when it is converted, a tuple of three
    numbers. *)
Lemma version_tuple_three (v : string) (t : list N) :
  lang VERSION v -> version_tuple v = Ok t -> exists a b c, t = [a; b; c].
Proof.
  intros L H. destruct (split_version L) as (d1 & d2 & d3 & _ & E & _).
  unfold version_tuple in H. rewrite E in H. apply ints_length in H.
  destruct t as [|a [|b [|c [|]]]]; try discriminate H. eauto.
Qed.

Lemma digit_val_digit (c : ascii) : is_digit c = true -> (digit_val c <= 9)%N.
Proof.
  unfold is_digit, in_range, digit_val. intros H.
  apply andb_true_iff in H as [_ H]. apply N.leb_le in H. lia.
Qed.

Lemma int_acc_bound (s : string) :
  all_chars is_digit s = true ->
  forall acc,
    (int_acc acc s < (acc + 1) * 10 ^ N.of_nat (String.length s))%N.
Proof.
  induction s as [|c s IH]; intros H acc.
  - cbn. lia.
  - cbn [all_chars] in H. apply andb_true_iff in H as [Hc Hs].
    apply digit_val_digit in Hc. cbn [int_acc String.length].
    specialize (IH Hs (10 * acc + digit_val c)%N).
    rewrite Nat2N.inj_succ, N.pow_succ_r'.
    eapply N.lt_le_trans; [exact IH|].
    rewrite (N.mul_comm 10), N.mul_assoc.
    apply N.mul_le_mono_r. lia.
Qed.

(** A number written with [n] digits is below [10 ^ n]. *)
Lemma decimal_bound (s : string) :
  all_chars is_digit s = true ->
  (decimal s < 10 ^ N.of_nat (String.length s))%N.
Proof.
  intros H. unfold decimal.
  pose proof (int_acc_bound s H 0%N) as B.
  now rewrite N.add_0_l, N.mul_1_l in B.
Qed.

(** A number [int] returns is written with no more digits than the
    limit. *)
Lemma int_ok_bound (s : string) (n : N) :
  all_chars is_digit s = true -> int s = Ok n ->
  (n < 10 ^ int_max_str_digits)%N.
Proof.
  intros Hd. unfold int.
  destruct (N.ltb_spec int_max_str_digits (N.of_nat (String.length s)));
    [discriminate|].
  intros [= <-]. eapply N.lt_le_trans; [exact (decimal_bound s Hd)|].
  apply N.pow_le_mono_r; [discriminate | assumption].
Qed.

Lemma version_tuple_bound (v : string) (t : list N) :
  lang VERSION v -> version_tuple v = Ok t ->
  Forall (fun n => (n < 10 ^ int_max_str_digits)%N) t.
Proof.
  intros L H. destruct (split_version L) as (d1 & d2 & d3 & _ & E & D).
  unfold version_tuple in H. rewrite E in H. cbn [ints] in H.
  destruct (int d1) as [n1|] eqn:I1; [|discriminate].
  destruct (int d2) as [n2|] eqn:I2; [|discriminate].
  destruct (int d3) as [n3|] eqn:I3; [|discriminate].
  injection H as <-.
  inversion D as [|? ? D1 D']; subst. inversion D' as [|? ? D2 D'']; subst.
  inversion D'' as [|? ? D3 _]; subst.
  repeat constructor;
    [exact (int_ok_bound d1 D1 I1) | exact (int_ok_bound d2 D2 I2)
     | exact (int_ok_bound d3 D3 I3)].
Qed.

(** X2: a version bound of a [Line] is a tuple of exactly three numbers,
    so that the condition written for it reads [(a, b, c)]. *)
Theorem Line_versions_three (text : string) (l : Line) :
  Line_init text = Ok l ->
  forall t, min_version l = Some t \/ max_version l = Some t ->
  exists a b c,
    t = [a; b; c]
    /\ str_tuple t = "(" ++ str_int a ++ ", " ++ str_int b ++ ", " ++ str_int c ++ ")".
Proof.
  intros H t Ht. apply Line_init_parts in H
    as (parts & rest & M & _ & _ & _ & Hmin & Hmax & _).
  apply match_groups in M as [_ G].
  assert (V : exists v, lang VERSION v /\ version_tuple v = Ok t).
  { destruct Ht as [Ht | Ht].
    - rewrite Ht in Hmin. apply version_attr_ok in Hmin as (v & E & Hv).
      destruct (G _ _ E) as (b & [<- | []] & L). eauto.
    - rewrite Ht in Hmax. apply version_attr_ok in Hmax as (v & E & Hv).
      destruct (G _ _ E) as (b & [<- | []] & L). eauto. }
  destruct V as (v & L & Hv).
  destruct (version_tuple_three L Hv) as (a & b & c & ->).
  exists a, b, c. split; [reflexivity|].
  unfold str_tuple. cbn [map join]. now rewrite !append_assoc.
Qed.

(** The numbers of the versions of a [Line] the parser builds are
    written with no more digits than [str] accepts. *)
Lemma Line_versions_bounded (text : string) (l : Line) :
  Line_init text = Ok l ->
  forall t, min_version l = Some t \/ max_version l = Some t ->
  Forall (fun n => (n < 10 ^ int_max_str_digits)%N) t.
Proof.
  intros H t Ht. apply Line_init_parts in H
    as (parts & rest & M & _ & _ & _ & Hmin & Hmax & _).
  apply match_groups in M as [_ G].
  destruct Ht as [Ht | Ht].
  - rewrite Ht in Hmin. apply version_attr_ok in Hmin as (v & E & Hv).
    destruct (G _ _ E) as (b & [<- | []] & L).
    exact (version_tuple_bound L Hv).
  - rewrite Ht in Hmax. apply version_attr_ok in Hmax as (v & E & Hv).
    destruct (G _ _ E) as (b & [<- | []] & L).
    exact (version_tuple_bound L Hv).
Qed.

Lemma Line_versions_three_witness :
  exists a b c, [1; 8; 12]%N = [a; b; c]
    /\ str_tuple [1; 8; 12]%N
       = "(" ++ str_int a ++ ", " ++ str_int b ++ ", " ++ str_int c ++ ")".
Proof.
  apply (@Line_versions_three foo_text foo_line eq_refl [1; 8; 12]%N).
  left. reflexivity.
Defined.

(* ------------------------------------------------------------------ *)
(** ** The arguments of the call                                        *)
(* ------------------------------------------------------------------ *)

Lemma findall_from_Forall (P : string -> Prop) (r : regex) (name : string) :
  (forall s g rest, match_ r s = Some (g, rest) ->
                    P (match group name g with Some v => v | None => EmptyString end)) ->
  forall s k, Forall P (findall_from r name k s).
Proof.
  intros H. induction s as [|c s IH]; intros k; cbn [findall_from].
  - constructor.
  - destruct k as [|k]; [|apply IH].
    destruct (match_ r (String c s)) as [[g rest]|] eqn:E; [|apply IH].
    constructor; [exact (H _ _ _ E) | apply IH].
Qed.

Lemma sig_params_langs (sig : string) :
  Forall (lang IDENT_RE) (sig_params sig).
Proof.
  unfold sig_params, findall. apply findall_from_Forall.
  intros s g rest M.
  pose proof (@match_binds _ _ _ _ "param" M eq_refl) as B.
  destruct (group "param" g) as [v|] eqn:E; [|congruence].
  apply match_groups in M as [_ G].
  destruct (G _ _ E) as (b & [<- | []] & L). exact L.
Qed.

(** X3: every argument [SIG_PATTERN.findall] extracts from a signature is
    an identifier, whatever the signature. *)
Theorem sig_params_identifiers (sig : string) :
  Forall (fun a => is_ident a = true) (sig_params sig).
Proof.
  eapply Forall_impl; [|apply sig_params_langs].
  intros a. apply lang_IDENT.
Qed.

(* ------------------------------------------------------------------ *)
(** ** Blocks of lines under the "IF" checks                            *)
(* ------------------------------------------------------------------ *)

Lemma startswith_NL (c : ascii) (s : string) :
  startswith NL (String c s) = is_char "010" c.
Proof.
  unfold NL, chr. change (ascii_of_nat 10) with "010"%char.
  cbn [startswith]. apply andb_true_r.
Qed.

Lemma not_newline_false (c : ascii) :
  not_newline c = true -> is_char "010" c = false.
Proof. unfold not_newline. apply negb_true_iff. Qed.

Lemma count_from_run (run s : string) :
  no_nl run = true -> count_from NL 0 (run ++ s) = count_from NL 0 s.
Proof.
  induction run as [|c run IH]; [reflexivity|].
  cbn [no_nl all_chars]. intros H. apply andb_true_iff in H as [H1 H2].
  cbn [append count_from]. rewrite startswith_NL, (not_newline_false _ H1).
  auto.
Qed.

Lemma count_from_NL (s : string) :
  count_from NL 0 (NL ++ s) = S (count_from NL 0 s).
Proof.
  change (NL ++ s) with (String "010" s).
  cbn [count_from]. rewrite startswith_NL. reflexivity.
Qed.

Lemma count_unlines (ls : list string) :
  Forall (fun x => no_nl x = true) ls ->
  count NL (unlines ls) = List.length ls.
Proof.
  unfold count. induction 1 as [|x ls Hx _ IH]; cbn [unlines]; [reflexivity|].
  rewrite count_from_run by exact Hx. rewrite count_from_NL, IH. reflexivity.
Qed.

Lemma replace_from_run (new run s : string) (k : Z) :
  no_nl run = true ->
  replace_from NL new 0 k (run ++ s) = run ++ replace_from NL new 0 k s.
Proof.
  induction run as [|c run IH]; [reflexivity|].
  cbn [no_nl all_chars]. intros H. apply andb_true_iff in H as [H1 H2].
  cbn [append replace_from]. rewrite startswith_NL, (not_newline_false _ H1).
  rewrite andb_false_r. now rewrite IH.
Qed.

Lemma replace_from_NL (new s : string) (k : nat) :
  replace_from NL new 0 (Z.of_nat (S k)) (NL ++ s)
  = new ++ replace_from NL new 0 (Z.of_nat k) s.
Proof.
  change (NL ++ s) with (String "010" s).
  cbn [replace_from]. rewrite startswith_NL.
  replace (Z.of_nat (S k) =? 0)%Z with false by (symmetry; apply Z.eqb_neq; lia).
  replace (Z.of_nat (S k) <? 0)%Z with false by (symmetry; apply Z.ltb_ge; lia).
  replace (Z.of_nat (S k) - 1)%Z with (Z.of_nat k) by lia.
  reflexivity.
Qed.

Lemma replace_from_none (old new s : string) :
  replace_from old new 0 0 s = s.
Proof. induction s as [|c s IH]; simpl; congruence. Qed.

(** The first [k] newlines of a block of [k + 1] lines are replaced. *)
Lemma replace_unlines (new : string) (ls : list string) :
  Forall (fun x => no_nl x = true) ls ->
  forall k, List.length ls = S k ->
  replace_from NL new 0 (Z.of_nat k) (unlines ls) = join new ls ++ NL.
Proof.
  induction 1 as [|x ls Hx Hls IH]; intros k Hk; [discriminate|].
  cbn [unlines]. rewrite replace_from_run by exact Hx.
  destruct k as [|k].
  - destruct ls; [|discriminate]. cbn [unlines join Z.of_nat].
    now rewrite replace_from_none, append_nil_r.
  - destruct ls as [|y ls]; [discriminate|].
    rewrite replace_from_NL.
    rewrite (IH k) by (cbn in Hk |- *; lia).
    cbn [join]. now rewrite !append_assoc.
Qed.

Lemma indent_unlines (ls : list string) :
  Forall (fun x => no_nl x = true) ls -> ls <> [] ->
  "    " ++ indent (unlines ls) = unlines (map (append "    ") ls).
Proof.
  intros H Hne. unfold indent, replace_n. rewrite (count_unlines H).
  destruct ls as [|x ls]; [congruence|].
  replace (Z.of_nat (List.length (x :: ls)) - 1)%Z
    with (Z.of_nat (List.length ls)) by (cbn [List.length]; lia).
  rewrite (replace_unlines _ H (k := List.length ls)) by reflexivity.
  clear H Hne. revert x. induction ls as [|y ls IH]; intros x.
  - cbn [join map unlines]. now rewrite append_assoc, (append_nil_r NL).
  - change (join (NL ++ "    ") (x :: y :: ls))
      with (x ++ (NL ++ "    ") ++ join (NL ++ "    ") (y :: ls)).
    change (unlines (map (append "    ") (x :: y :: ls)))
      with (("    " ++ x) ++ NL ++ unlines (map (append "    ") (y :: ls))).
    rewrite <- IH. now rewrite !append_assoc.
Qed.

(** A block of lines under a guard: the line of the guard, then the
    lines of the block, four spaces to the right. *)
Lemma guarded_unlines (condition : string) (ls : list string) :
  Forall (fun x => no_nl x = true) ls -> ls <> [] ->
  guarded condition (unlines ls)
  = unlines (("IF " ++ condition ++ ":") :: map (append "    ") ls).
Proof.
  intros H Hne. unfold guarded. cbn [unlines].
  rewrite <- (indent_unlines H Hne). now rewrite !append_assoc.
Qed.

Lemma no_nl_app (a b : string) : no_nl (a ++ b) = no_nl a && no_nl b.
Proof. apply all_chars_app. Qed.

Lemma Forall_no_nl_indent (ls : list string) :
  Forall (fun x => no_nl x = true) ls ->
  Forall (fun x => no_nl x = true) (map (append "    ") ls).
Proof.
  intros H. apply Forall_map. eapply Forall_impl; [|exact H].
  intros x Hx. now rewrite no_nl_app, Hx.
Qed.

Lemma add_cython_if_unlines (l : Line) (ls : list string) :
  Forall (fun x => no_nl x = true) ls -> ls <> [] ->
  add_cython_if l (unlines ls) = unlines (guard_lines l ls).
Proof.
  intros H Hne. rewrite add_cython_if_guards. cbv zeta.
  unfold guard_lines, has_version.
  assert (Hin : (if mpi l then guarded "MPI" (unlines ls) else unlines ls)
                = unlines (if mpi l then "IF MPI:" :: map (append "    ") ls else ls)).
  { destruct (mpi l); [|reflexivity]. now rewrite guarded_unlines. }
  rewrite Hin.
  assert (Hi : Forall (fun x => no_nl x = true)
                 (if mpi l then "IF MPI:" :: map (append "    ") ls else ls)
               /\ (if mpi l then "IF MPI:" :: map (append "    ") ls else ls) <> []).
  { destruct (mpi l); [|auto]. split; [|discriminate].
    constructor; [reflexivity | now apply Forall_no_nl_indent]. }
  destruct Hi as [Hi Hine].
  destruct (min_version l), (max_version l);
    try reflexivity; now rewrite guarded_unlines.
Qed.

(** X4: [add_cython_if] on a block of whole lines gives whole lines
    again: the line of the check on the version if the line has a version
    bound, then the line [IF MPI:] if it needs MPI, indented under the
    first, then the block, four spaces to the right for each check; a
    line of the block that is empty comes out as spaces. *)
Theorem add_cython_if_lines (l : Line) (ls : list string) :
  Forall (fun x => no_nl x = true) ls -> ls <> [] ->
  add_cython_if l (unlines ls) = unlines (guard_lines l ls).
Proof. exact (@add_cython_if_unlines l ls). Qed.

Lemma add_cython_if_lines_witness :
  add_cython_if foo_line (unlines ["a"; "b"; ""])
  = unlines [ "IF HDF5_VERSION >= (1, 8, 12):";
              "    IF MPI:";
              "        a";
              "        b";
              "        " ].
Proof.
  rewrite (@add_cython_if_lines foo_line ["a"; "b"; ""]).
  - reflexivity.
  - repeat constructor.
  - discriminate.
Defined.

(* ------------------------------------------------------------------ *)
(** ** What a function line writes                                      *)
(* ------------------------------------------------------------------ *)

Lemma no_nl_join (xs : list string) :
  Forall (fun x => no_nl x = true) xs -> no_nl (join ", " xs) = true.
Proof.
  induction 1 as [|x xs Hx Hxs IH]; [reflexivity|].
  destruct xs as [|y xs]; [exact Hx|].
  change (join ", " (x :: y :: xs)) with (x ++ ", " ++ join ", " (y :: xs)).
  now rewrite !no_nl_app, Hx, IH.
Qed.

(** No attribute of a line holds a newline. *)
Lemma Line_no_nl (text : string) (l : Line) :
  Line_init text = Ok l ->
  no_nl (code l) = true /\ no_nl (fname l) = true
  /\ no_nl (sig l) = true /\ no_nl (args l) = true.
Proof.
  intros H. pose proof (@Line_init_langs _ _ H) as (Lc & Lf & Ls).
  apply Line_init_parts in H as (_ & _ & _ & _ & _ & _ & _ & _ & ->).
  repeat split.
  - exact (@lang_chars not_newline CODE_RE _ eq_refl Lc).
  - exact (@lang_chars not_newline IDENT_RE _ eq_refl Lf).
  - exact (@lang_chars not_newline (Star sigch) _ eq_refl Ls).
  - apply no_nl_join. eapply Forall_impl; [|apply sig_params_langs].
    intros a La. exact (@lang_chars not_newline IDENT_RE _ eq_refl La).
Qed.

Lemma sig_template_filled (l : Line) :
  format (lookup (line_fields l)) ("{0.code} {0.fname}({0.sig}) except *" ++ NL)
  = unlines [declaration l].
Proof. unfold declaration. flatten_text. reflexivity. Qed.

Lemma cdef_template_filled (l : Line) :
  format (lookup (line_fields l))
         ("cdef {0.code} {0.fname}({0.sig}) except *" ++ NL)
  = unlines ["cdef " ++ declaration l].
Proof. unfold declaration. flatten_text. reflexivity. Qed.

Lemma imp_text_lines (l : Line) (condition : string) (retval : value) :
  imp_text l condition retval = unlines (imp_lines l condition retval).
Proof. unfold imp_text, line_fields. now rewrite imp_template_filled. Qed.

Lemma split_unlines (ls : list string) :
  Forall (fun x => no_nl x = true) ls ->
  split NL (unlines ls) = (ls ++ [EmptyString])%list.
Proof.
  unfold split. induction 1 as [|x ls Hx _ IH]; [reflexivity|].
  cbn [unlines]. rewrite (@split_from_run "010" EmptyString x _ Hx).
  change (NL ++ unlines ls) with (String "010" (unlines ls)).
  rewrite (@split_from_sep "010"). cbn [append app].
  f_equal. exact IH.
Qed.

Lemma join_unlines (xs : list string) :
  join NL (xs ++ [EmptyString])%list = unlines xs.
Proof.
  induction xs as [|x xs IH]; [reflexivity|].
  cbn [app unlines]. rewrite <- IH.
  destruct xs; reflexivity.
Qed.

Lemma lstrip_nonblank (s : string) :
  blank s = false ->
  exists c s', lstrip s = String c s' /\ is_space c = false.
Proof.
  induction s as [|c s IH]; cbn [blank all_chars lstrip]; [discriminate|].
  destruct (is_space c) eqn:Hc; [exact IH | eauto].
Qed.

(** A line that is not made of whitespace is not empty once stripped. *)
Lemma strip_nonblank (s : string) :
  blank s = false -> strip s <> EmptyString.
Proof.
  intros H. unfold strip.
  destruct (@lstrip_nonblank _ H) as (c & s' & -> & Hc).
  cbn [rstrip]. rewrite Hc. destruct (rstrip s'); discriminate.
Qed.

(** The last statement of [write_raw_sig], on a block of lines none of
    which is blank: two spaces before each line. *)
Lemma raw_lines_indent (ls : list string) :
  Forall (fun x => no_nl x = true) ls ->
  Forall (fun x => blank x = false) ls ->
  join NL (map (fun x => match strip x with
                         | EmptyString => x
                         | _ => "  " ++ x
                         end)
               (split NL (unlines ls)))
  = unlines (map (append "  ") ls).
Proof.
  intros Hn Hb. rewrite (@split_unlines _ Hn), map_app. cbn [map strip lstrip rstrip].
  rewrite join_unlines. f_equal.
  apply map_ext_in. intros x Hx. rewrite Forall_forall in Hb.
  pose proof (@strip_nonblank _ (Hb _ Hx)) as N.
  destruct (strip x); [congruence | reflexivity].
Qed.

Lemma guard_lines_no_nl (l : Line) (ls : list string) :
  Forall (fun x => no_nl x = true) ls ->
  no_nl (version_guard l) = true ->
  Forall (fun x => no_nl x = true) (guard_lines l ls).
Proof.
  intros H Hv. unfold guard_lines.
  assert (Hi : Forall (fun x => no_nl x = true)
                 (if mpi l then "IF MPI:" :: map (append "    ") ls else ls)).
  { destruct (mpi l); [|exact H].
    constructor; [reflexivity | now apply Forall_no_nl_indent]. }
  destruct (has_version l); [|exact Hi].
  constructor; [|now apply Forall_no_nl_indent].
  now rewrite !no_nl_app, Hv.
Qed.

Lemma guard_lines_nonblank (l : Line) (ls : list string) :
  Forall (fun x => blank x = false) ls ->
  Forall (fun x => blank x = false) (guard_lines l ls).
Proof.
  intros H. unfold guard_lines.
  assert (Hm : forall xs, Forall (fun x => blank x = false) xs ->
                          Forall (fun x => blank x = false) (map (append "    ") xs)).
  { intros xs Hxs. apply Forall_map. eapply Forall_impl; [|exact Hxs].
    intros x Hx. exact Hx. }
  assert (Hi : Forall (fun x => blank x = false)
                 (if mpi l then "IF MPI:" :: map (append "    ") ls else ls)).
  { destruct (mpi l); [|exact H]. constructor; [reflexivity | auto]. }
  destruct (has_version l); [|exact Hi].
  constructor; [reflexivity | auto].
Qed.

Lemma guard_lines_nonempty (l : Line) (ls : list string) :
  ls <> [] -> guard_lines l ls <> [].
Proof.
  intros H. unfold guard_lines.
  destruct (has_version l); [discriminate|].
  destruct (mpi l); [discriminate | exact H].
Qed.

Lemma no_nl_string_of_uint (d : Decimal.uint) :
  no_nl (NilEmpty.string_of_uint d) = true.
Proof. induction d; cbn [NilEmpty.string_of_uint]; auto. Qed.

Lemma no_nl_str_tuple (t : list N) : no_nl (str_tuple t) = true.
Proof.
  assert (J : forall xs : list N, no_nl (join ", " (map str_int xs)) = true).
  { intros xs. apply no_nl_join. apply Forall_map. apply Forall_forall.
    intros x _. apply no_nl_string_of_uint. }
  unfold str_tuple. destruct t as [|x [|y t]].
  - reflexivity.
  - rewrite !no_nl_app. unfold str_int. now rewrite no_nl_string_of_uint.
  - now rewrite !no_nl_app, J.
Qed.

Lemma no_nl_version_guard (l : Line) : no_nl (version_guard l) = true.
Proof.
  unfold version_guard. destruct (min_version l), (max_version l);
    rewrite ?no_nl_app, ?no_nl_str_tuple; reflexivity.
Qed.

Lemma alpha_not_space (c : ascii) : alpha_ c = true -> is_space c = false.
Proof.
  intros H.
  pose proof (@subclass_spec alpha_ (fun c => negb (is_space c)) eq_refl c H) as N.
  now apply negb_true_iff in N.
Qed.

Lemma declaration_nonblank (text : string) (l : Line) :
  Line_init text = Ok l -> blank (declaration l) = false.
Proof.
  intros H. apply Line_init_langs in H as (Lc & _ & _).
  apply lang_Cat_inv in Lc as (s0 & s1 & Ec & L0 & L1).
  apply lang_Cat_inv in L1 as (s2 & s3 & -> & L2 & _).
  apply lang_Plus_inv in L2 as (c & s' & -> & Hc & _).
  unfold declaration. rewrite Ec.
  apply lang_Opt_inv in L0 as [-> | L0].
  - cbn [append blank all_chars]. now rewrite (alpha_not_space _ Hc).
  - apply lang_Cat_inv in L0 as (u & w & -> & Lu & _).
    apply lang_Lit_inv in Lu as ->. reflexivity.
Qed.

(** X5: a function line that parses and whose return type is known
    raises nothing and appends one block of whole lines to each file: the
    declaration, under the "IF" checks of the line, to the file of
    wrapper declarations; the same with [cdef] left out and two more
    spaces before every line to the file of raw definitions; the eleven
    lines of the implementation, under the same checks, to the file of
    implementations. *)
Theorem function_line_output
  (text : string) (l : Line) (condition : string) (retval : value)
  (st : streams) :
  is_function_line text = true ->
  Line_init (strip text) = Ok l ->
  classify (code l) = Ok (condition, retval) ->
  process_line text st =
  (Ok tt,
   mkStreams
     (raw_defs st ++
      unlines (map (append "  ") (guard_lines l [declaration l])))
     (cython_defs st ++ unlines (guard_lines l ["cdef " ++ declaration l]))
     (cython_imp st ++
      unlines (guard_lines l (imp_lines l condition retval)))).
Proof.
  intros Hf Hl Hc.
  destruct (Line_no_nl _ Hl) as (Nc & Nf & Ns & Na).
  pose proof (declaration_nonblank _ Hl) as Bd.
  assert (Nd : no_nl (declaration l) = true).
  { unfold declaration. now rewrite !no_nl_app, Nc, Nf, Ns. }
  assert (Ni : Forall (fun x => no_nl x = true) (imp_lines l condition retval)).
  { assert (Hcr : no_nl condition = true /\ no_nl (str retval) = true).
    { destruct (classify_cases _ Hc) as [E | [E | E]];
        injection E as -> ->; split; reflexivity. }
    destruct Hcr as [Nk Nr]. unfold imp_lines.
    assert (Nb : no_nl (str_bool (error l)) = true) by (destruct (error l); reflexivity).
    repeat constructor; rewrite ?no_nl_app, ?Nc, ?Nf, ?Ns, ?Na, ?Nk, ?Nr, ?Nb;
      reflexivity. }
  rewrite (process_function_line _ Hf).
  unfold bind, lift, write_raw_sig, write_cython_sig, write_cython_imp,
    raw_defs_write, cython_defs_write, cython_imp_write.
  rewrite Hl, Hc. unfold bind, lift. cbn [fst snd raw_defs cython_defs cython_imp].
  rewrite sig_template_filled, cdef_template_filled, imp_text_lines.
  rewrite !add_cython_if_unlines;
    try discriminate; try (repeat constructor; assumption); try assumption.
  rewrite raw_lines_indent; [reflexivity | |].
  - apply guard_lines_no_nl; [repeat constructor; assumption|].
    apply no_nl_version_guard.
  - apply guard_lines_nonblank. repeat constructor; assumption.
Qed.

Lemma function_line_output_witness :
  process_line ("  " ++ foo_text ++ NL) no_output =
  (Ok tt,
   mkStreams
     (unlines [ "  IF HDF5_VERSION >= (1, 8, 12):";
                "      IF MPI:";
                "          int foo(char* a, size_t b) except *" ])
     (unlines [ "IF HDF5_VERSION >= (1, 8, 12):";
                "    IF MPI:";
                "        cdef int foo(char* a, size_t b) except *" ])
     (unlines (guard_lines foo_line (imp_lines foo_line "<0" (Str "-1"))))).
Proof.
  apply (@function_line_output ("  " ++ foo_text ++ NL) foo_line "<0"
           (Str "-1") no_output); reflexivity.
Defined.

(* ------------------------------------------------------------------ *)
(** ** The loop over the lines                                          *)
(* ------------------------------------------------------------------ *)

Lemma app_streams_assoc (a b c : streams) :
  app_streams (app_streams a b) c = app_streams a (app_streams b c).
Proof. unfold app_streams. cbn. now rewrite !append_assoc. Qed.

Lemma app_streams_nil_r (a : streams) : app_streams a no_output = a.
Proof. destruct a. unfold app_streams. cbn. now rewrite !append_nil_r. Qed.

Lemma app_streams_nil_l (a : streams) : app_streams no_output a = a.
Proof. now destruct a. Qed.

Lemma appends_ret (A : Type) (a : A) : appends (ret a).
Proof. intros st. unfold ret. cbn. now rewrite app_streams_nil_r. Qed.

Lemma appends_lift (A : Type) (r : res A) : appends (lift r).
Proof. intros st. unfold lift. cbn. now rewrite app_streams_nil_r. Qed.

Lemma appends_raw (t : string) : appends (raw_defs_write t).
Proof.
  intros st. unfold raw_defs_write, app_streams. cbn.
  now rewrite !append_nil_r.
Qed.

Lemma appends_defs (t : string) : appends (cython_defs_write t).
Proof.
  intros st. unfold cython_defs_write, app_streams. cbn.
  now rewrite !append_nil_r.
Qed.

Lemma appends_imp (t : string) : appends (cython_imp_write t).
Proof.
  intros st. unfold cython_imp_write, app_streams. cbn.
  now rewrite !append_nil_r.
Qed.

Lemma appends_bind (A B : Type) (m : M A) (f : A -> M B) :
  appends m -> (forall a, appends (f a)) -> appends (bind m f).
Proof.
  intros Hm Hf st. unfold bind. rewrite (Hm st).
  destruct (m no_output) as [[a | e] d]; cbn [fst snd].
  - rewrite (Hf a (app_streams st d)), (Hf a d). cbn [fst snd].
    now rewrite app_streams_assoc.
  - reflexivity.
Qed.

Lemma appends_process_line (text : string) : appends (process_line text).
Proof.
  unfold process_line. destruct (is_header text); [apply appends_raw|].
  destruct ((String.length (strip text) =? 0)%nat || startswith "#" (strip text));
    [apply appends_ret|].
  apply appends_bind; [apply appends_lift|]. intros l.
  apply appends_bind; [apply appends_raw|]. intros _.
  apply appends_bind; [apply appends_defs|]. intros _.
  apply appends_bind; [apply appends_lift|]. intros cr.
  apply appends_imp.
Qed.

Lemma appends_for_lines (lines : list string) : appends (for_lines lines).
Proof.
  induction lines as [|text lines IH]; cbn [for_lines].
  - apply appends_ret.
  - apply appends_bind; [apply appends_process_line | intros _; exact IH].
Qed.

(** X6: the loop only appends to the three files, and neither what it
    appends nor the exception it raises depends on what the files held:
    run on files that hold [st], it leaves [st] followed by what it
    writes to empty files. *)
Theorem for_lines_appends (lines : list string) (st : streams) :
  for_lines lines st =
  (fst (for_lines lines no_output),
   app_streams st (snd (for_lines lines no_output))).
Proof. exact (appends_for_lines lines st). Qed.


Lemma occurs_in_app (v a s : string) : occurs_in v s -> occurs_in v (a ++ s).
Proof.
  intros (x & y & ->). exists (a ++ x), y. now rewrite append_assoc.
Qed.

Lemma occurs_in_length (v s : string) :
  occurs_in v s -> String.length v <= String.length s.
Proof. intros (x & y & ->). rewrite !length_append. lia. Qed.

Section Parts.
Variable R : Type.

(** Every group of a match holds a part of the text that was searched. *)
Lemma match_k_parts (r : regex) :
  forall (s : string) (g : groups) (k : string -> groups -> option R) (x : R),
    match_k r s g k = Some x ->
    exists s1 s' g1,
      s = s1 ++ s'
      /\ k s' (g1 ++ g)%list = Some x
      /\ Forall (fun nv => occurs_in (snd nv) s) g1.
Proof.
  induction r as [l|p|p|r1 IH1 r2 IH2|r IH|name r IH]; intros s g k x; simpl.
  - destruct (drop_prefix l s) as [s'|] eqn:E; [|discriminate].
    apply drop_prefix_app in E as ->. intros H.
    exists l, s', []. auto.
  - destruct s as [|c s]; [discriminate|].
    destruct (p c); [|discriminate].
    intros H. exists (String c EmptyString), s, []. auto.
  - intros H. apply star_k_split in H as (s1 & s' & -> & _ & H).
    exists s1, s', []. auto.
  - intros H. apply IH1 in H as (s1 & s' & g1 & -> & H & F1).
    apply IH2 in H as (s2 & s'' & g2 & -> & H & F2).
    exists (s1 ++ s2), s'', (g2 ++ g1)%list.
    rewrite append_assoc, <- app_assoc. repeat split; auto.
    apply Forall_app. split; [|exact F1].
    eapply Forall_impl; [|exact F2]. cbv beta. intros nv Hnv.
    now apply occurs_in_app.
  - destruct (match_k r s g k) eqn:E.
    + intros [= ->]. apply IH in E as (s1 & s' & g1 & -> & H & F).
      exists s1, s', g1. auto.
    + intros H. exists EmptyString, s, []. auto.
  - intros H. apply IH in H as (s1 & s' & g1 & -> & H & F).
    rewrite consumed_app in H.
    exists s1, s', ((name, s1) :: g1). repeat split; auto.
    constructor; [|exact F]. cbn [snd]. exists EmptyString, s'. reflexivity.
Qed.
End Parts.

Lemma match_group_part (r : regex) (s rest n v : string) (g : groups) :
  match_ r s = Some (g, rest) -> group n g = Some v -> occurs_in v s.
Proof.
  unfold match_. intros H Hn.
  apply match_k_parts in H as (s1 & s' & g1 & _ & [= <- _] & F).
  rewrite app_nil_r in Hn. apply group_In in Hn.
  rewrite Forall_forall in F. exact (F _ Hn).
Qed.

(** No piece [split] makes is longer than the text. *)
Lemma split_from_short (sep : string) (s : string) :
  forall (skip : nat) (cur x : string),
    In x (split_from sep skip cur s) ->
    String.length x <= String.length cur + String.length s.
Proof.
  induction s as [|c s IH]; intros skip cur x; cbn [split_from].
  - intros [<- | []]. lia.
  - destruct skip as [|k].
    + destruct (startswith sep (String c s)).
      * intros [<- | H]; [lia|]. apply IH in H. simpl in *. lia.
      * intros H. apply IH in H. rewrite length_append in H. simpl in *. lia.
    + intros H. apply IH in H. simpl. lia.
Qed.

(** The exceptions of [Line.__init__]: the one for a line that does not
    match, and the one of [int] for a version number of too many digits
    in a line that matches. *)
Lemma Line_init_raise_cases (text : string) (e : exn) :
  Line_init text = Raise e ->
  (e = ValueError ("Invalid line encountered: " ++ text)
   /\ match_ PATTERN text = None)
  \/ (match_ PATTERN text <> None
      /\ exists n, long_version text n
                   /\ (n <= N.of_nat (String.length text))%N
                   /\ e = int_limit_error n).
Proof.
  unfold Line_init.
  destruct (match_ PATTERN text) as [[parts rest]|] eqn:M.
  - assert (B : forall name e0,
               In name ["min_version"; "max_version"] ->
               version_attr (group name parts) = Raise e0 ->
               exists n, long_version text n
                         /\ (n <= N.of_nat (String.length text))%N
                         /\ e0 = int_limit_error n).
    { intros name e0 Hname H.
      apply version_attr_raise in H as (t & x & Ht & Hx & Ex).
      apply int_raise in Ex as [-> Hn].
      pose proof (@match_group_part _ _ _ _ _ _ M Ht) as P.
      assert (L : lang VERSION t).
      { destruct (proj2 (match_groups _ _ M) _ _ Ht) as (b & Hb & L).
        destruct Hname as [<- | [<- | []]]; destruct Hb as [<- | []];
          exact L. }
      exists (N.of_nat (String.length x)). split; [|split; [|reflexivity]].
      - exists t, x. auto.
      - apply occurs_in_length in P.
        apply split_from_short in Hx. simpl in Hx. lia. }
    destruct (version_attr (group "min_version" parts)) as [lo|e1] eqn:E1.
    + destruct (version_attr (group "max_version" parts)) as [hi|e2] eqn:E2;
        [discriminate|].
      intros [= <-]. right. split; [discriminate|].
      apply (B "max_version"); [cbn; auto | exact E2].
    + intros [= <-]. right. split; [discriminate|].
      apply (B "min_version"); [cbn; auto | exact E1].
  - intros [= <-]. now left.
Qed.










(* ------------------------------------------------------------------ *)
(** ** The arguments of a plain signature                               *)
(* ------------------------------------------------------------------ *)

(** The greedy repetition takes a whole run of the class when the rest of
    the pattern accepts what follows the run. *)
Lemma star_k_greedy (R : Type) (p : ascii -> bool) (k : string -> option R)
  (run s : string) (x : R) :
  all_chars p run = true -> first_not p s = true -> k s = Some x ->
  star_k p (run ++ s) k = Some x.
Proof.
  intros Hr Hs Hk. induction run as [|c run IH]; cbn [append].
  - destruct s as [|c s]; cbn [star_k]; [exact Hk|].
    cbn [first_not] in Hs. apply negb_true_iff in Hs. now rewrite Hs.
  - cbn [all_chars] in Hr. apply andb_true_iff in Hr as [Hc Hr].
    cbn [star_k]. now rewrite Hc, (IH Hr).
Qed.

(** A text is a run of a class followed by a text that does not start
    with a character of the class. *)
Lemma span_class (p : ascii -> bool) (s : string) :
  exists a b, s = a ++ b /\ all_chars p a = true /\ first_not p b = true.
Proof.
  induction s as [|c s (a & b & -> & Ha & Hb)].
  - exists EmptyString, EmptyString. auto.
  - destruct (p c) eqn:Hc.
    + exists (String c a), b. cbn [all_chars]. now rewrite Hc.
    + exists EmptyString, (String c (a ++ b)). cbn [first_not]. now rewrite Hc.
Qed.

Lemma is_ident_inv (s : string) :
  is_ident s = true ->
  exists c a b,
    s = String c (a ++ b) /\ alpha_ c = true
    /\ all_chars alpha_ a = true /\ first_not alpha_ b = true
    /\ all_chars alnum_ b = true.
Proof.
  destruct s as [|c s]; [discriminate|]. cbn [is_ident].
  intros H. apply andb_true_iff in H as [Hc Hs].
  destruct (span_class alpha_ s) as (a & b & -> & Ha & Hb).
  rewrite all_chars_app in Hs. apply andb_true_iff in Hs as [_ Hs].
  exists c, a, b. auto 10.
Qed.

Lemma first_not_stars_sp (p : ascii -> bool) (k : nat) (s : string) :
  p "*"%char = false -> p " "%char = false ->
  first_not p (stars k ++ " " ++ s) = true.
Proof. intros H1 H2. destruct k; cbn; now rewrite ?H1, ?H2. Qed.

Lemma all_chars_stars (k : nat) : all_chars star (stars k) = true.
Proof. induction k; cbn; auto. Qed.

Lemma first_not_weaken (p q : ascii -> bool) (s : string) :
  (forall c, p c = true -> q c = true) ->
  first_not q s = true -> first_not p s = true.
Proof.
  intros H. destruct s as [|c s]; [reflexivity|]. cbn [first_not].
  rewrite !negb_true_iff. intros Hq. destruct (p c) eqn:Hp; [|reflexivity].
  rewrite (H _ Hp) in Hq. discriminate.
Qed.

(** An identifier followed by a character that is not of an identifier
    starts with a word and a space only if it is that word. *)
Lemma drop_word (w t s s' : string) :
  all_chars alnum_ w = true -> is_ident t = true ->
  first_not alnum_ s = true ->
  drop_prefix w (t ++ s) = Some (String " " s') -> t = w.
Proof.
  intros Hw Ht Hs H. apply drop_prefix_app in H.
  assert (Ht' : all_chars alnum_ t = true).
  { destruct t as [|c t]; [discriminate|]. cbn [is_ident] in Ht.
    apply andb_true_iff in Ht as [Hc Ht]. cbn [all_chars]. rewrite Ht.
    now rewrite (@subclass_spec alpha_ alnum_ eq_refl c Hc). }
  clear Ht. revert t s Hw Ht' Hs H.
  induction w as [|a w IH]; intros t s Hw Ht Hs E.
  - destruct t as [|b t]; [reflexivity|]. cbn in E. injection E as -> _.
    cbn in Ht. discriminate.
  - destruct t as [|b t].
    + cbn in E. subst s. cbn [first_not all_chars] in Hs, Hw.
      apply andb_true_iff in Hw as [Ha _]. rewrite Ha in Hs. discriminate.
    + cbn in E. injection E as -> E. cbn [all_chars] in Hw, Ht.
      apply andb_true_iff in Hw as [_ Hw]. apply andb_true_iff in Ht as [_ Ht].
      f_equal. eapply IH; eauto.
Qed.

Lemma first_not_app (p : ascii -> bool) (a b : string) :
  first_not p a = true -> first_not p b = true -> first_not p (a ++ b) = true.
Proof. intros Ha Hb. destruct a; [exact Hb | exact Ha]. Qed.

Lemma alpha_first_not (p : ascii -> bool) (c : ascii) (s : string) :
  subclass alpha_ (fun c => negb (p c)) = true ->
  alpha_ c = true -> first_not p (String c s) = true.
Proof. intros H Hc. cbn [first_not]. exact (@subclass_spec _ _ H c Hc). Qed.

(** The match of [SIG_PATTERN] at the start of a plain parameter that is
    followed by no character of an identifier: the parameter is consumed
    whole and the group holds its name. *)
Lemma match_param (p : param) (rest : string) :
  param_ok p = true -> first_not alnum_ rest = true ->
  match_ SIG_PATTERN (param_text p ++ rest)
  = Some ([("param", p_name p)], rest).
Proof.
  destruct p as [t k n]. unfold param_ok, param_text.
  cbn [p_type p_stars p_name]. intros H Hrest.
  apply andb_true_iff in H as [H Hn]. apply andb_true_iff in H as [Ht Hu].
  apply negb_true_iff in Hu. apply String.eqb_neq in Hu.
  rewrite !append_assoc.
  unfold match_, SIG_PATTERN. cbn [match_k Plus].
  (* the optional [unsigned] does not match *)
  match goal with
  | |- match ?X with Some x => Some x | None => _ end = _ =>
      assert (HX : X = None); [|rewrite HX; clear HX]
  end.
  { destruct (drop_prefix "unsigned" (t ++ stars k ++ " " ++ n ++ rest))
      as [[|c s']|] eqn:E; try reflexivity.
    destruct (sp c) eqn:Hc; [|reflexivity].
    unfold sp, is_char in Hc. apply Ascii.eqb_eq in Hc. subst c.
    exfalso. apply Hu.
    apply (@drop_word "unsigned" t (stars k ++ " " ++ n ++ rest) s'
             eq_refl Ht); [|exact E].
    apply first_not_stars_sp; reflexivity. }
  (* the type, its stars and the space *)
  destruct (is_ident_inv _ Ht) as (c & a & b & -> & Hc & Ha & Hb & Hb').
  destruct (is_ident_inv _ Hn) as (c' & a' & b' & -> & Hc' & Ha' & Hb1 & Hb2).
  cbn [append]. rewrite Hc, !append_assoc.
  apply star_k_greedy; [exact Ha | |].
  { apply first_not_app; [exact Hb|]. apply first_not_stars_sp; reflexivity. }
  apply star_k_greedy; [exact Hb' | |].
  { apply first_not_stars_sp; reflexivity. }
  apply star_k_greedy; [apply all_chars_stars | reflexivity |].
  cbn [append].
  change (sp " ") with true. cbv iota.
  (* no more space, no star, then the name *)
  apply (@star_k_greedy _ sp _ EmptyString);
    [reflexivity | now apply alpha_first_not |].
  apply (@star_k_greedy _ sp_star _ EmptyString);
    [reflexivity | now apply alpha_first_not |].
  cbn [append]. rewrite Hc'.
  apply star_k_greedy; [exact Ha' | |].
  { apply first_not_app; [exact Hb1|].
    apply (first_not_weaken alpha_ alnum_); [|exact Hrest].
    apply subclass_spec. reflexivity. }
  apply star_k_greedy; [exact Hb2 | exact Hrest |].
  rewrite <- append_assoc.
  change (String c' ((a' ++ b') ++ rest)) with (String c' (a' ++ b') ++ rest).
  now rewrite consumed_app.
Qed.

Lemma findall_from_skip (r : regex) (name pre rest : string) :
  findall_from r name (String.length pre) (pre ++ rest)
  = findall_from r name 0 rest.
Proof.
  induction pre as [|c pre IH]; cbn [String.length append findall_from].
  - reflexivity.
  - exact IH.
Qed.

(** A search goes on where the last match ended. *)
Lemma findall_from_match (r : regex) (name : string) (c : ascii)
  (m rest : string) (g : groups) :
  match_ r (String c m ++ rest) = Some (g, rest) ->
  findall_from r name 0 (String c m ++ rest)
  = match group name g with Some v => v | None => EmptyString end
    :: findall_from r name 0 rest.
Proof.
  intros H. cbn [append findall_from]. cbn [append] in H. rewrite H.
  f_equal. rewrite <- (findall_from_skip r name m rest). f_equal.
  cbn [String.length]. rewrite length_append. lia.
Qed.

Lemma findall_from_comma_space (s : string) :
  findall_from SIG_PATTERN "param" 0 (", " ++ s)
  = findall_from SIG_PATTERN "param" 0 s.
Proof. reflexivity. Qed.

Lemma replace_from_absent (old new s : string) (k : Z) :
  contains old s = false -> replace_from old new 0 k s = s.
Proof.
  induction s as [|c s IH]; [reflexivity|].
  cbn [contains replace_from]. intros H.
  apply orb_false_iff in H as [H1 H2].
  rewrite H1, andb_false_r. now rewrite IH.
Qed.

Lemma findall_plain (ps : list param) :
  Forall (fun p => param_ok p = true) ps ->
  findall SIG_PATTERN "param" (sig_text ps) = map p_name ps.
Proof.
  unfold findall, sig_text.
  induction 1 as [|p ps Hp Hps IH]; [reflexivity|].
  assert (Hne : exists c m, param_text p = String c m).
  { unfold param_ok in Hp. apply andb_true_iff in Hp as [Hp _].
    apply andb_true_iff in Hp as [Hp _]. unfold param_text.
    destruct (p_type p) as [|c t]; [discriminate|]. cbn [append]. eauto. }
  destruct Hne as (c & m & Em).
  destruct ps as [|q ps].
  - cbn [map join]. rewrite <- (append_nil_r (param_text p)).
    pose proof (@match_param p EmptyString Hp eq_refl) as M.
    rewrite Em in M |- *. now rewrite (findall_from_match _ _ _ _ M).
  - change (join ", " (map param_text (p :: q :: ps)))
      with (param_text p ++ ", " ++ join ", " (map param_text (q :: ps))).
    pose proof (@match_param p (", " ++ join ", " (map param_text (q :: ps)))
                  Hp eq_refl) as M.
    rewrite Em in M |- *. rewrite (findall_from_match _ _ _ _ M).
    rewrite findall_from_comma_space, IH. reflexivity.
Qed.

(** X10: for a signature that lists plain parameters (a type name that
    is not the word [unsigned], any number of stars, one space, a name),
    separated by a comma and a space, and that does not hold the word
    [const], the arguments extracted are the names of the parameters, one
    for each parameter and in their order. *)
Theorem sig_params_plain (ps : list param) :
  Forall (fun p => param_ok p = true) ps ->
  contains "const" (sig_text ps) = false ->
  sig_params (sig_text ps) = map p_name ps.
Proof.
  intros Hps Hc. unfold sig_params, replace, replace_n.
  rewrite (@replace_from_absent _ _ _ _ Hc). now apply findall_plain.
Qed.

Lemma sig_params_plain_witness :
  sig_params "char* a, size_t b" = ["a"; "b"].
Proof.
  apply (@sig_params_plain [mkParam "char" 1 "a"; mkParam "size_t" 0 "b"]).
  - repeat constructor.
  - reflexivity.
Defined.

(* ------------------------------------------------------------------ *)
(** ** Lines in their usual writing                                     *)
(* ------------------------------------------------------------------ *)

Lemma consumed_eq (s x s' : string) : s = x ++ s' -> consumed s s' = x.
Proof. intros ->. apply consumed_app. Qed.

Section Peel.
Variable R : Type.
Variables (r : regex) (g : groups) (k : string -> groups -> option R) (x : R).

(** A marker that is written. *)
Lemma peel_word_present (n w s : string) :
  first_not sp s = true ->
  match_k r s ((n, w ++ " ") :: g) k = Some x ->
  match_k (Opt (Grp n (Lit w +++ Plus sp)) +++ r) (w ++ " " ++ s) g k = Some x.
Proof.
  intros Hs H. cbn [match_k Plus].
  rewrite (proj2 (drop_prefix_app w (w ++ " " ++ s) (" " ++ s)) eq_refl).
  cbn [append]. change (sp " ") with true. cbv iota.
  rewrite (@star_k_greedy _ sp _ EmptyString s x eq_refl Hs); [reflexivity|].
  rewrite (@consumed_eq _ (w ++ " ") s); [exact H|].
  now rewrite append_assoc.
Qed.

(** A marker that is not written. *)
Lemma peel_word_absent (n w s : string) :
  (forall s', drop_prefix w s <> Some (String " " s')) ->
  match_k r s g k = Some x ->
  match_k (Opt (Grp n (Lit w +++ Plus sp)) +++ r) s g k = Some x.
Proof.
  intros Hw H. cbn [match_k Plus].
  destruct (drop_prefix w s) as [[|c s1]|] eqn:E; try exact H.
  destruct (sp c) eqn:Hc; [|exact H].
  unfold sp, is_char in Hc. apply Ascii.eqb_eq in Hc. subst c.
  now destruct (Hw s1).
Qed.

Lemma digits_inv (d : string) :
  digits d = true ->
  exists c d', d = String c d' /\ is_digit c = true
               /\ all_chars is_digit d' = true.
Proof.
  destruct d as [|c d]; [discriminate|]. cbn [digits all_chars].
  intros H. apply andb_true_iff in H as [H1 H2]. eauto.
Qed.

(** A version that is written. *)
Lemma match_version (v : string * string * string) (s : string)
  (K : string -> groups -> option R) (g0 : groups) :
  vdigits v = true -> first_not is_digit s = true ->
  K s g0 = Some x ->
  match_k VERSION (vtext v ++ s) g0 K = Some x.
Proof.
  destruct v as [[a b] c]. unfold vdigits, vtext. cbn [fst snd].
  intros H Hs HK. apply andb_true_iff in H as [H Hc].
  apply andb_true_iff in H as [Ha Hb].
  apply digits_inv in Ha as (a0 & a' & -> & Ha0 & Ha).
  apply digits_inv in Hb as (b0 & b' & -> & Hb0 & Hb).
  apply digits_inv in Hc as (c0 & c' & -> & Hc0 & Hc).
  unfold VERSION. cbn [match_k Plus]. rewrite !append_assoc. cbn [append].
  rewrite Ha0. apply star_k_greedy; [exact Ha | reflexivity|].
  cbn [drop_prefix append]. change (Ascii.eqb "." ".") with true. cbv iota.
  rewrite Hb0. apply star_k_greedy; [exact Hb | reflexivity|].
  cbn [drop_prefix append]. change (Ascii.eqb "." ".") with true. cbv iota.
  rewrite Hc0. apply star_k_greedy; [exact Hc | exact Hs | exact HK].
Qed.

Lemma peel_min_present (v : string * string * string) (s : string) :
  vdigits v = true -> first_not is_digit s = true ->
  match_k r s (("min_version", vtext v) :: g) k = Some x ->
  match_k (Opt (Grp "min_version" VERSION) +++ r) (vtext v ++ s) g k = Some x.
Proof.
  intros Hv Hs H. cbn [match_k].
  rewrite (@match_version v s _ g Hv Hs); [reflexivity|].
  rewrite (@consumed_eq _ (vtext v) s eq_refl). exact H.
Qed.

Lemma version_absent (s : string) (K : string -> groups -> option R)
  (g0 : groups) :
  first_not is_digit s = true -> match_k VERSION s g0 K = None.
Proof.
  intros Hs. unfold VERSION. cbn [match_k Plus].
  destruct s as [|c s]; [reflexivity|]. cbn [first_not] in Hs.
  apply negb_true_iff in Hs. now rewrite Hs.
Qed.

Lemma peel_min_absent (s : string) :
  first_not is_digit s = true ->
  match_k r s g k = Some x ->
  match_k (Opt (Grp "min_version" VERSION) +++ r) s g k = Some x.
Proof.
  intros Hs H. cbn [match_k]. now rewrite version_absent.
Qed.

Lemma peel_max_present (v : string * string * string) (s : string) :
  vdigits v = true -> first_not is_digit s = true ->
  match_k r s (("max_version", vtext v) :: g) k = Some x ->
  match_k (Opt (Lit "-" +++ Grp "max_version" VERSION) +++ r)
          ("-" ++ vtext v ++ s) g k = Some x.
Proof.
  intros Hv Hs H. cbn [match_k drop_prefix append].
  change (Ascii.eqb "-" "-") with true. cbv iota.
  rewrite (@match_version v s _ g Hv Hs); [reflexivity|].
  rewrite (@consumed_eq _ (vtext v) s eq_refl). exact H.
Qed.

Lemma peel_max_absent (s : string) :
  first_not (is_char "-") s = true ->
  match_k r s g k = Some x ->
  match_k (Opt (Lit "-" +++ Grp "max_version" VERSION) +++ r) s g k = Some x.
Proof.
  intros Hs H. cbn [match_k].
  destruct s as [|c s]; [exact H|]. cbn [first_not] in Hs.
  apply negb_true_iff in Hs. unfold is_char in Hs.
  cbn [drop_prefix]. now rewrite Hs.
Qed.

Lemma peel_space_present (s : string) :
  first_not sp s = true ->
  match_k r s g k = Some x ->
  match_k (Opt (Plus sp) +++ r) (" " ++ s) g k = Some x.
Proof.
  intros Hs H. cbn [match_k Plus append]. change (sp " ") with true. cbv iota.
  now rewrite (@star_k_greedy _ sp _ EmptyString s x eq_refl Hs H).
Qed.

Lemma peel_space_absent (s : string) :
  first_not sp s = true ->
  match_k r s g k = Some x ->
  match_k (Opt (Plus sp) +++ r) s g k = Some x.
Proof.
  intros Hs H. cbn [match_k Plus].
  destruct s as [|c s]; [exact H|]. cbn [first_not] in Hs.
  apply negb_true_iff in Hs. now rewrite Hs.
Qed.
End Peel.

Lemma PATTERN_CORE :
  PATTERN =
  Opt (Grp "mpi" (Lit "MPI" +++ Plus sp)) +++
  Opt (Grp "error" (Lit "ERROR" +++ Plus sp)) +++
  Opt (Grp "min_version" VERSION) +++
  Opt (Lit "-" +++ Grp "max_version" VERSION) +++
  Opt (Plus sp) +++ CORE_RE.
Proof. reflexivity. Qed.

(** The match of the end of [PATTERN] on a return type, a space, a name
    and a signature between parentheses. *)
Lemma match_core (R : Type) (ty name sg rest : string) (n : nat)
  (g : groups) (K : string -> groups -> option R) (x : R) :
  is_ident ty = true -> ty <> "unsigned" ->
  is_ident name = true -> all_chars sigch sg = true ->
  K rest (("sig", sg) :: ("fname", name) :: ("code", ty ++ stars n) :: g)
    = Some x ->
  match_k CORE_RE (ty ++ stars n ++ " " ++ name ++ "(" ++ sg ++ ")" ++ rest) g K
  = Some x.
Proof.
  intros Ht Hu Hn Hs HK.
  unfold CORE_RE. cbn [match_k Plus].
  match goal with
  | |- match ?X with Some x => Some x | None => _ end = _ =>
      assert (HX : X = None); [|rewrite HX; clear HX]
  end.
  { destruct (drop_prefix "unsigned" (ty ++ stars n ++ " " ++ name ++ "(" ++ sg ++ ")" ++ rest))
      as [[|c s']|] eqn:E; try reflexivity.
    destruct (sp c) eqn:Hc; [|reflexivity].
    unfold sp, is_char in Hc. apply Ascii.eqb_eq in Hc. subst c.
    exfalso. apply Hu.
    apply (@drop_word "unsigned" ty _ s' eq_refl Ht) with (2 := E).
    apply first_not_stars_sp; reflexivity. }
  destruct (is_ident_inv _ Ht) as (c & a & b & Et & Hc & Ha & Hb & Hb').
  destruct (is_ident_inv _ Hn) as (c' & a' & b' & En & Hc' & Ha' & Hb1 & Hb2).
  subst ty name. cbn [append]. rewrite Hc, !append_assoc.
  apply star_k_greedy; [exact Ha | |].
  { apply first_not_app; [exact Hb|]. apply first_not_stars_sp; reflexivity. }
  apply star_k_greedy; [exact Hb' | |].
  { apply first_not_stars_sp; reflexivity. }
  apply star_k_greedy; [apply all_chars_stars | reflexivity |].
  cbn [append]. change (sp " ") with true. cbv iota.
  apply (@star_k_greedy _ sp _ EmptyString);
    [reflexivity | now apply alpha_first_not |].
  cbn [append]. rewrite Hc'.
  apply star_k_greedy; [exact Ha' | |].
  { apply first_not_app; [exact Hb1 | reflexivity]. }
  apply star_k_greedy; [exact Hb2 | reflexivity |].
  apply (@star_k_greedy _ sp _ EmptyString); [reflexivity | reflexivity |].
  cbn [append drop_prefix]. change (Ascii.eqb "(" "(") with true. cbv iota.
  apply star_k_greedy; [exact Hs | reflexivity |].
  cbn [append drop_prefix]. change (Ascii.eqb ")" ")") with true. cbv iota.
  rewrite consumed_app.
  rewrite (@consumed_eq _ (String c' (a' ++ b')) (String "(" (sg ++ String ")" rest)))
    by (cbn [append]; now rewrite append_assoc).
  rewrite (@consumed_eq _ (String c (a ++ b) ++ stars n)
             (String " " (String c' (a' ++ b' ++ String "(" (sg ++ String ")" rest)))))
    by (cbn [append]; now rewrite !append_assoc).
  exact HK.
Qed.

Lemma first_not_ident (p : ascii -> bool) (ty s : string) :
  subclass alpha_ (fun c => negb (p c)) = true ->
  is_ident ty = true -> first_not p (ty ++ s) = true.
Proof.
  intros H Ht. destruct ty as [|c ty]; [discriminate|].
  cbn [is_ident] in Ht. apply andb_true_iff in Ht as [Hc _].
  cbn [append]. now apply alpha_first_not.
Qed.

Lemma first_not_vtext (p : ascii -> bool) (v : string * string * string)
  (s : string) :
  subclass is_digit (fun c => negb (p c)) = true ->
  vdigits v = true -> first_not p (vtext v ++ s) = true.
Proof.
  intros H Hv. destruct v as [[a b] c]. unfold vdigits, vtext in *.
  cbn [fst snd] in *. apply andb_true_iff in Hv as [Hv _].
  apply andb_true_iff in Hv as [Ha _].
  destruct a as [|a0 a]; [discriminate|]. cbn [digits all_chars] in Ha.
  apply andb_true_iff in Ha as [Ha _]. cbn [append first_not].
  exact (@subclass_spec _ _ H a0 Ha).
Qed.

Lemma word_absent_first (w0 : ascii) (w' s : string) :
  first_not (is_char w0) s = true ->
  forall s', drop_prefix (String w0 w') s <> Some (String " " s').
Proof.
  intros H s'. destruct s as [|c s]; [discriminate|].
  cbn [first_not] in H. apply negb_true_iff in H. unfold is_char in H.
  cbn [drop_prefix]. rewrite H. discriminate.
Qed.

Lemma word_absent_ident (w ty s : string) :
  all_chars alnum_ w = true -> is_ident ty = true -> ty <> w ->
  first_not alnum_ s = true ->
  forall s', drop_prefix w (ty ++ s) <> Some (String " " s').
Proof.
  intros Hw Ht Hne Hs s' E. apply Hne.
  exact (@drop_word w ty s s' Hw Ht Hs E).
Qed.

Lemma append_nil_l (s : string) : EmptyString ++ s = s.
Proof. reflexivity. Qed.

Lemma mem_words (ty : string) :
  mem ty ["MPI"; "ERROR"; "unsigned"] = false ->
  ty <> "MPI" /\ ty <> "ERROR" /\ ty <> "unsigned".
Proof.
  unfold mem. cbn [existsb]. rewrite !orb_false_iff.
  intros (H1 & H2 & H3 & _). rewrite !String.eqb_neq in *. auto.
Qed.

(** The side conditions of the steps of the match below. *)
Ltac not_first :=
  solve [ reflexivity
        | apply first_not_ident; [reflexivity | assumption]
        | apply first_not_vtext; [reflexivity | assumption]
        | apply first_not_stars_sp; reflexivity ].

Ltac no_word :=
  solve [ apply word_absent_first; not_first
        | apply word_absent_ident;
          [reflexivity | assumption | assumption
          | apply first_not_stars_sp; reflexivity ] ].

Ltac peel_step :=
  lazymatch goal with
  | |- match_k (Opt (Grp _ (Lit ?w +++ _)) +++ _) (?w ++ " " ++ _) _ _ = _ =>
      apply peel_word_present; [not_first|]
  | |- match_k (Opt (Grp _ (Lit _ +++ _)) +++ _) _ _ _ = _ =>
      apply peel_word_absent; [no_word|]
  | |- match_k (Opt (Grp _ VERSION) +++ _) (vtext _ ++ _) _ _ = _ =>
      apply peel_min_present; [assumption | not_first |]
  | |- match_k (Opt (Grp _ VERSION) +++ _) _ _ _ = _ =>
      apply peel_min_absent; [not_first|]
  | |- match_k (Opt (Lit _ +++ Grp _ VERSION) +++ _) ("-" ++ _) _ _ = _ =>
      apply peel_max_present; [assumption | not_first |]
  | |- match_k (Opt (Lit _ +++ Grp _ VERSION) +++ _) _ _ _ = _ =>
      apply peel_max_absent; [not_first|]
  | |- match_k (Opt (Plus sp) +++ _) (" " ++ _) _ _ = _ =>
      apply peel_space_present; [not_first|]
  | |- match_k (Opt (Plus sp) +++ _) _ _ _ = _ =>
      apply peel_space_absent; [not_first|]
  end.

(** The match of [PATTERN] on a line in its usual writing, whatever
    follows the closing parenthesis. *)
Lemma match_plain (pl : plain_line) (junk : string) :
  pl_ok pl = true ->
  match_ PATTERN (pl_text pl ++ junk) = Some (pl_parts pl, junk).
Proof.
  destruct pl as [m e lo hi ty n name sg].
  unfold pl_ok, pl_text, pl_parts, pl_versions.
  cbn [pl_mpi pl_error pl_min pl_max pl_type pl_stars pl_name pl_sig].
  intros H.
  apply andb_true_iff in H as [H _]. apply andb_true_iff in H as [H _].
  apply andb_true_iff in H as [H Hhi]. apply andb_true_iff in H as [H Hlo].
  apply andb_true_iff in H as [H Hsg]. apply andb_true_iff in H as [H Hname].
  apply andb_true_iff in H as [Hty Hw]. apply negb_true_iff in Hw.
  apply mem_words in Hw as (W1 & W2 & W3).
  rewrite PATTERN_CORE. unfold match_.
  change "MPI "%string with ("MPI" ++ " ").
  change "ERROR "%string with ("ERROR" ++ " ").
  destruct m, e, lo as [lo|], hi as [hi|];
    rewrite ?append_assoc, ?append_nil_l;
    do 5 peel_step;
    (apply match_core; [assumption | assumption | assumption | assumption |]);
    reflexivity.
Qed.

Lemma version_tuple_vtext (v : string * string * string) :
  vdigits v = true -> vshort v = true ->
  version_tuple (vtext v) = Ok (vtuple v).
Proof.
  destruct v as [[a b] c].
  unfold vdigits, vshort, short_digits, vtext, vtuple, version_tuple, split.
  cbn [fst snd]. intros H S. apply andb_true_iff in H as [H Hc].
  apply andb_true_iff in H as [Ha Hb].
  apply andb_true_iff in S as [S Sc]. apply andb_true_iff in S as [Sa Sb].
  apply N.leb_le in Sa, Sb, Sc.
  assert (D : forall d, digits d = true ->
                        all_chars (fun c => negb (Ascii.eqb "." c)) d = true).
  { intros d Hd. destruct d as [|d0 d]; [discriminate|].
    apply (all_chars_weaken is_digit); [|exact Hd].
    apply subclass_spec. reflexivity. }
  rewrite (@split_from_run "." _ _ _ (D _ Ha)). cbn [append].
  rewrite split_from_sep.
  rewrite (@split_from_run "." _ _ _ (D _ Hb)). cbn [append].
  rewrite split_from_sep.
  pose proof (@split_from_run "." EmptyString c EmptyString (D _ Hc)) as E3.
  rewrite append_nil_r in E3. rewrite E3. cbn [append split_from ints].
  now rewrite (int_short _ Sa), (int_short _ Sb), (int_short _ Sc).
Qed.

(** X11: a function line in its usual writing (the markers [MPI] and
    [ERROR], the versions, a return type made of a type name and stars,
    the name, the signature between parentheses) parses to the [Line]
    that has exactly these attributes, the versions as tuples of three
    numbers, when none of these numbers is written with more digits than
    [int] accepts; text after the closing parenthesis changes nothing. *)
Theorem plain_line_parses (pl : plain_line) (junk : string) :
  pl_ok pl = true ->
  Line_init (pl_text pl ++ junk) = Ok (pl_line pl).
Proof.
  intros H. unfold Line_init. rewrite (match_plain _ junk H).
  assert (Hv : (match pl_min pl with Some v => vdigits v | None => true end = true
                /\ match pl_max pl with Some v => vdigits v | None => true end = true)
               /\ match pl_min pl with Some v => vshort v | None => true end = true
               /\ match pl_max pl with Some v => vshort v | None => true end = true).
  { unfold pl_ok in H. apply andb_true_iff in H as [H H4].
    apply andb_true_iff in H as [H H3]. apply andb_true_iff in H as [H H2].
    apply andb_true_iff in H as [_ H1]. auto. }
  destruct Hv as ([Hlo Hhi] & Slo & Shi). clear H.
  destruct pl as [m e lo hi ty n name sg]. unfold pl_parts, pl_line, part.
  cbn [pl_mpi pl_error pl_min pl_max pl_type pl_stars pl_name pl_sig] in *.
  destruct m, e, lo as [lo|], hi as [hi|];
    cbn [app group String.eqb Ascii.eqb Bool.eqb option_map version_attr];
    rewrite ?version_tuple_vtext by assumption; reflexivity.
Qed.

Lemma plain_line_parses_witness :
  Line_init (foo_text ++ " nogil") = Ok foo_line.
Proof.
  exact (@plain_line_parses
           (mkPlain true true (Some ("1", "8", "12")) None
                    "int" 0 "foo" "char* a, size_t b")
           " nogil" eq_refl).
Defined.

(* ------------------------------------------------------------------ *)
(** ** Comments and blank lines                                         *)
(* ------------------------------------------------------------------ *)

Lemma lstrip_blank (s : string) : blank s = true -> lstrip s = EmptyString.
Proof.
  induction s as [|c s IH]; [reflexivity|]. cbn [blank all_chars lstrip].
  intros H. apply andb_true_iff in H as [Hc Hs]. rewrite Hc. auto.
Qed.

Lemma rstrip_head (c : ascii) (s : string) :
  is_space c = false -> startswith (String c EmptyString) (rstrip (String c s)) = true.
Proof.
  intros Hc. cbn [rstrip]. rewrite Hc.
  destruct (rstrip s); cbn [startswith]; now rewrite Ascii.eqb_refl.
Qed.

Lemma strip_comment (text : string) :
  startswith "#" (lstrip text) = true -> startswith "#" (strip text) = true.
Proof.
  unfold strip. destruct (lstrip text) as [|c s]; [discriminate|].
  cbn [startswith]. rewrite andb_true_r. intros H.
  apply Ascii.eqb_eq in H. subst c. now apply rstrip_head.
Qed.

(** X12: a line made of whitespace only, and a line whose first
    character other than whitespace is [#] and that starts with that [#]
    or with a space, raise nothing and write nothing. *)
Theorem comment_or_blank_skipped (text : string) (st : streams) :
  blank text = true
  \/ ((startswith " " text = true \/ startswith "#" text = true)
      /\ startswith "#" (lstrip text) = true) ->
  process_line text st = (Ok tt, st).
Proof.
  intros [Hb | [Hs Hc]]; unfold process_line, is_header.
  - unfold strip. rewrite (lstrip_blank _ Hb). cbn [rstrip String.length].
    now rewrite andb_false_r.
  - assert (H1 : negb (startswith " " text) && negb (startswith "#" text) = false).
    { destruct Hs as [-> | ->]; [reflexivity | apply andb_false_r]. }
    rewrite H1. cbn [andb]. now rewrite (strip_comment _ Hc), orb_true_r.
Qed.

Lemma comment_or_blank_skipped_witness :
  process_line ("   # === H5A ===" ++ NL) preambles = (Ok tt, preambles)
  /\ process_line ("  " ++ TAB ++ NL) preambles = (Ok tt, preambles).
Proof.
  split; apply comment_or_blank_skipped.
  - right. split; [left|]; reflexivity.
  - left. reflexivity.
Defined.

(* ------------------------------------------------------------------ *)
(** ** The first closing parenthesis                                    *)
(* ------------------------------------------------------------------ *)

Lemma not_close_paren (p : ascii -> bool) :
  subclass p not_close = true -> p ")"%char = false.
Proof.
  intros H. destruct (p ")"%char) eqn:E; [|reflexivity].
  pose proof (@subclass_spec _ _ H _ E) as C. discriminate C.
Qed.

Lemma substring_app_short (n : nat) (a b : string) :
  n <= String.length a -> substring 0 n (a ++ b) = substring 0 n a.
Proof.
  revert n. induction a as [|c a IH]; intros [|n]; simpl; intros H.
  - destruct b; reflexivity.
  - lia.
  - reflexivity.
  - rewrite IH by lia. reflexivity.
Qed.

(** What a group takes of a text does not depend on what follows the
    text left to the rest of the pattern. *)
Lemma consumed_upto (s s2 t t' : string) :
  consumed (s ++ ")" ++ t) (s2 ++ ")" ++ t)
  = consumed (s ++ ")" ++ t') (s2 ++ ")" ++ t').
Proof.
  unfold consumed.
  assert (E : forall u,
             String.length (s ++ ")" ++ u) - String.length (s2 ++ ")" ++ u)
             = String.length s - String.length s2).
  { intros u. rewrite !length_append. simpl. lia. }
  rewrite !E.
  rewrite !substring_app_short by lia. reflexivity.
Qed.

Lemma drop_prefix_upto (l s t : string) :
  no_close l = true -> no_close s = true ->
  drop_prefix l (s ++ ")" ++ t)
  = option_map (fun s2 => s2 ++ ")" ++ t) (drop_prefix l s).
Proof.
  revert s. induction l as [|a l IH]; intros s Hl Hs.
  - reflexivity.
  - unfold no_close in Hl. cbn [all_chars] in Hl.
    apply andb_true_iff in Hl as [Ha Hl].
    destruct s as [|b s].
    + cbn [append drop_prefix option_map].
      destruct (Ascii.eqb_spec a ")"%char) as [->|Hne]; [discriminate Ha|].
      reflexivity.
    + unfold no_close in Hs. cbn [all_chars] in Hs.
      apply andb_true_iff in Hs as [Hb Hs].
      cbn [append drop_prefix]. destruct (Ascii.eqb a b); [|reflexivity].
      now apply IH.
Qed.

Lemma drop_prefix_no_close (l s s2 : string) :
  no_close s = true -> drop_prefix l s = Some s2 -> no_close s2 = true.
Proof.
  intros Hs E. apply drop_prefix_app in E as ->.
  unfold no_close in *. rewrite all_chars_app in Hs.
  now apply andb_true_iff in Hs as [_ Hs].
Qed.

Section Upto.
Variable R : Type.
Variables t t' : string.

Lemma star_k_upto (p : ascii -> bool) (k k' : string -> option R) (s : string) :
  subclass p not_close = true ->
  (forall s2, no_close s2 = true -> k (s2 ++ ")" ++ t) = k' (s2 ++ ")" ++ t')) ->
  no_close s = true ->
  star_k p (s ++ ")" ++ t) k = star_k p (s ++ ")" ++ t') k'.
Proof.
  intros Hp Hk. induction s as [|c s IH]; intros Hs.
  - cbn [append star_k]. rewrite (@not_close_paren p Hp).
    exact (Hk EmptyString eq_refl).
  - pose proof Hs as Hs'. unfold no_close in Hs'. cbn [all_chars] in Hs'.
    apply andb_true_iff in Hs' as [_ Hs'].
    change (String c s ++ ")" ++ t) with (String c (s ++ ")" ++ t)).
    change (String c s ++ ")" ++ t') with (String c (s ++ ")" ++ t')).
    cbn [star_k]. rewrite (IH Hs').
    pose proof (Hk (String c s) Hs) as E.
    change (String c s ++ ")" ++ t) with (String c (s ++ ")" ++ t)) in E.
    change (String c s ++ ")" ++ t') with (String c (s ++ ")" ++ t')) in E.
    rewrite E. reflexivity.
Qed.

(** A pattern that takes no closing parenthesis gives the same result on
    two texts that are the same up to their first closing parenthesis, if
    the rest of the pattern does. *)
Lemma match_k_upto (r : regex) :
  chars_in not_close r = true ->
  forall (k k' : string -> groups -> option R) (s : string) (g : groups),
    agree t t' k k' -> no_close s = true ->
    match_k r (s ++ ")" ++ t) g k = match_k r (s ++ ")" ++ t') g k'.
Proof.
  induction r as [l|p|p|r1 IH1 r2 IH2|r IH|name r IH];
    cbn [chars_in]; intros Hr k k' s g Hk Hs; cbn [match_k].
  - rewrite !drop_prefix_upto by assumption.
    destruct (drop_prefix l s) as [s2|] eqn:E; cbn [option_map]; [|reflexivity].
    apply Hk. exact (@drop_prefix_no_close l s s2 Hs E).
  - destruct s as [|c s].
    + cbn [append]. now rewrite (@not_close_paren p Hr).
    + change (String c s ++ ")" ++ t) with (String c (s ++ ")" ++ t)).
      change (String c s ++ ")" ++ t') with (String c (s ++ ")" ++ t')).
      cbv beta iota. destruct (p c); [|reflexivity]. apply Hk.
      unfold no_close in Hs. cbn [all_chars] in Hs.
      now apply andb_true_iff in Hs as [_ Hs].
  - apply star_k_upto; [exact Hr | intros s2 H2; now apply Hk | exact Hs].
  - apply andb_true_iff in Hr as [H1 H2].
    apply IH1; auto. intros s2 g2 Hs2. apply IH2; auto.
  - rewrite (IH Hr k k' s g Hk Hs). now rewrite (Hk s g Hs).
  - apply IH; auto. intros s2 g2 Hs2. rewrite consumed_upto with (t' := t').
    now apply Hk.
Qed.

(** A pattern whose texts end with their only closing parenthesis gives
    the same result on two texts that are the same up to their first
    closing parenthesis, if the rest of the pattern does after it. *)
Lemma match_k_closes (r : regex) :
  closes r = true ->
  forall (k k' : string -> groups -> option R) (s : string) (g : groups),
    (forall g1, k t g1 = k' t' g1) -> no_close s = true ->
    match_k r (s ++ ")" ++ t) g k = match_k r (s ++ ")" ++ t') g k'.
Proof.
  induction r as [l|p|p|r1 IH1 r2 IH2|r IH|name r IH];
    cbn [closes]; intros Hr k k' s g Hk Hs; try discriminate Hr.
  - apply String.eqb_eq in Hr as ->. cbn [match_k].
    destruct s as [|c s].
    + cbn. apply Hk.
    + unfold no_close in Hs. cbn [all_chars] in Hs.
      apply andb_true_iff in Hs as [Hc _]. cbn [append drop_prefix].
      destruct (Ascii.eqb_spec ")"%char c) as [<-|Hne]; [discriminate Hc|].
      reflexivity.
  - apply andb_true_iff in Hr as [H1 H2]. cbn [match_k].
    apply match_k_upto; auto. intros s2 g2 Hs2. apply IH2; auto.
Qed.
End Upto.

(** The texts of such a pattern. *)
Lemma lang_closes (r : regex) (pre : string) :
  closes r = true -> lang r pre ->
  exists s, pre = s ++ ")" /\ no_close s = true.
Proof.
  revert pre. induction r as [l|p|p|r1 IH1 r2 IH2|r IH|name r IH];
    cbn [closes]; intros pre Hr L; try discriminate Hr.
  - apply String.eqb_eq in Hr as ->. apply lang_Lit_inv in L as ->.
    exists EmptyString. auto.
  - apply andb_true_iff in Hr as [H1 H2].
    apply lang_Cat_inv in L as (s1 & s2 & -> & L1 & L2).
    destruct (IH2 _ H2 L2) as (s & -> & Hs).
    exists (s1 ++ s). rewrite append_assoc. split; [reflexivity|].
    unfold no_close. rewrite all_chars_app.
    rewrite (@lang_chars not_close r1 s1 H1 L1). exact Hs.
Qed.

(** The matcher, for a continuation that keeps the groups only. *)
Lemma star_k_fst (A B : Type) (f : A -> B) (p : ascii -> bool)
  (k : string -> option A) (k' : string -> option B) (s : string) :
  (forall s', k' s' = option_map f (k s')) ->
  star_k p s k' = option_map f (star_k p s k).
Proof.
  intros Hk. induction s as [|c s IH]; cbn [star_k]; [apply Hk|].
  destruct (p c); [|apply Hk]. rewrite IH.
  destruct (star_k p s k); [reflexivity | apply Hk].
Qed.

Lemma match_k_fst (A B : Type) (f : A -> B) (r : regex) :
  forall (k : string -> groups -> option A)
         (k' : string -> groups -> option B) (s : string) (g : groups),
    (forall s' g', k' s' g' = option_map f (k s' g')) ->
    match_k r s g k' = option_map f (match_k r s g k).
Proof.
  induction r as [l|p|p|r1 IH1 r2 IH2|r IH|name r IH];
    intros k k' s g Hk; cbn [match_k].
  - destruct (drop_prefix l s); [apply Hk | reflexivity].
  - destruct s as [|c s]; [reflexivity|]. destruct (p c); [apply Hk | reflexivity].
  - apply star_k_fst. intros s'. apply Hk.
  - apply IH1. intros s' g'. now apply IH2.
  - rewrite (IH k k' s g Hk). destruct (match_k r s g k); [reflexivity | apply Hk].
  - apply IH. intros s' g'. apply Hk.
Qed.

(** The groups of a match of [PATTERN] are read up to the first closing
    parenthesis of the text. *)
Lemma match_upto_close (s t t' : string) :
  no_close s = true ->
  option_map fst (match_ PATTERN (s ++ ")" ++ t))
  = option_map fst (match_ PATTERN (s ++ ")" ++ t')).
Proof.
  intros Hs. unfold match_.
  rewrite <- !(@match_k_fst _ _ fst PATTERN (fun s' g => Some (g, s'))
                 (fun _ g => Some g)) by reflexivity.
  apply match_k_closes; auto.
Qed.

(** [Line.__init__] reads the groups only. *)
Lemma Line_init_groups (text text' : string) (l : Line) :
  option_map fst (match_ PATTERN text) = option_map fst (match_ PATTERN text') ->
  Line_init text = Ok l -> Line_init text' = Ok l.
Proof.
  unfold Line_init.
  destruct (match_ PATTERN text) as [[parts rest]|]; [|discriminate].
  destruct (match_ PATTERN text') as [[parts' rest']|]; [|discriminate].
  cbn [option_map fst]. now intros [= <-].
Qed.

(** A text that parses is cut at its first closing parenthesis: what
    comes before it and the parenthesis make a text of the pattern. *)
Lemma Line_init_cut (text : string) (l : Line) :
  Line_init text = Ok l ->
  exists s rest,
    text = s ++ ")" ++ rest /\ no_close s = true /\ lang PATTERN (s ++ ")").
Proof.
  intros H. apply Line_init_parts in H as (parts & rest & M & _).
  apply match_groups in M as [(pre & -> & L) _].
  destruct (@lang_closes PATTERN pre eq_refl L) as (s & -> & Hs).
  exists s, rest. rewrite append_assoc. auto.
Qed.

(** Text added after a line that parses does not make it fail. *)
Lemma Line_init_ignores_trailing_text (text extra : string) (l : Line) :
  Line_init text = Ok l -> exists l', Line_init (text ++ extra) = Ok l'.
Proof.
  intros H. destruct (@Line_init_cut text l H) as (s & rest & -> & Hs & _).
  exists l. rewrite !append_assoc.
  exact (@Line_init_groups _ _ l
           (@match_upto_close s rest (rest ++ extra) Hs) H).
Qed.

(** C2, as the code has it: [Line] is built exactly for the texts that
    start with a text of the pattern, which ends at the first closing
    parenthesis of the text; the [Line] built depends on nothing that
    follows this parenthesis, and whatever text follows it gives the
    same [Line].  For any other text the constructor raises, and builds
    no [Line]: when no text of the pattern starts the text, the
    [ValueError] that quotes the whole text; when one does, the
    [ValueError] of [int], which tells the number of digits of a number
    of a version the text holds, more digits than [int] accepts and no
    more than the text has characters. *)
Theorem Line_init_matches_prefix (text : string) :
  match Line_init text with
  | Ok l =>
      exists s rest,
        text = s ++ ")" ++ rest /\ no_close s = true
        /\ lang PATTERN (s ++ ")")
        /\ forall rest', Line_init (s ++ ")" ++ rest') = Ok l
  | Raise e =>
      (e = ValueError ("Invalid line encountered: " ++ text)
       /\ ~ exists pre rest, text = pre ++ rest /\ lang PATTERN pre)
      \/ ((exists pre rest, text = pre ++ rest /\ lang PATTERN pre)
          /\ exists n, long_version text n
                       /\ (n <= N.of_nat (String.length text))%N
                       /\ e = int_limit_error n)
  end.
Proof.
  destruct (Line_init text) as [l|e] eqn:H.
  - destruct (@Line_init_cut text l H) as (s & rest & -> & Hs & L).
    exists s, rest. repeat split; auto.
    intros rest'.
    exact (@Line_init_groups _ _ l (@match_upto_close s rest rest' Hs) H).
  - apply Line_init_raise_cases in H as [[-> M] | [M B]].
    + left. split; [reflexivity|]. intros P. apply match_prefix in P. congruence.
    + right. split; [now apply match_prefix | exact B].
Qed.

(* ------------------------------------------------------------------ *)
(** ** Header directives and the other lines                            *)
(* ------------------------------------------------------------------ *)

(** What [write_raw_sig] appends for a line that parsed. *)
Lemma write_raw_sig_parsed (text : string) (l : Line) (st : streams) :
  Line_init text = Ok l ->
  write_raw_sig l st =
  (Ok tt,
   mkStreams
     (raw_defs st ++
      unlines (map (append "  ") (guard_lines l [declaration l])))
     (cython_defs st) (cython_imp st)).
Proof.
  intros Hl.
  destruct (Line_no_nl _ Hl) as (Nc & Nf & Ns & Na).
  pose proof (declaration_nonblank _ Hl) as Bd.
  assert (Nd : no_nl (declaration l) = true).
  { unfold declaration. now rewrite !no_nl_app, Nc, Nf, Ns. }
  unfold write_raw_sig, raw_defs_write.
  rewrite sig_template_filled.
  rewrite add_cython_if_unlines;
    [| repeat constructor; assumption | discriminate].
  rewrite raw_lines_indent; [reflexivity | |].
  - apply guard_lines_no_nl; [repeat constructor; assumption|].
    apply no_nl_version_guard.
  - apply guard_lines_nonblank. repeat constructor; assumption.
Qed.

(** The two writers that follow leave the file of raw definitions as it
    is, whether they raise or not. *)
Lemma write_cython_sig_raw (l : Line) (st : streams) :
  raw_defs (snd (write_cython_sig l st)) = raw_defs st.
Proof. reflexivity. Qed.

Lemma write_cython_imp_raw (l : Line) (st : streams) :
  raw_defs (snd (write_cython_imp l st)) = raw_defs st.
Proof.
  unfold write_cython_imp, bind, lift, cython_imp_write.
  destruct (classify (code l)); reflexivity.
Qed.

(** What a line that is no header directive appends to the file of raw
    definitions: nothing, or the lines of a declaration, each of them
    after two spaces. *)
Lemma process_other_raw (text : string) (st : streams) :
  is_header text = false ->
  exists ls,
    Forall (fun x => no_nl x = true) ls
    /\ raw_defs (snd (process_line text st))
       = raw_defs st ++ unlines (map (append "  ") ls).
Proof.
  intros H. unfold process_line. rewrite H.
  assert (Z : exists ls : list string,
             Forall (fun x => no_nl x = true) ls
             /\ raw_defs st = raw_defs st ++ unlines (map (append "  ") ls)).
  { exists []. split; [constructor|]. cbn. now rewrite append_nil_r. }
  destruct ((String.length (strip text) =? 0)%nat || startswith "#" (strip text));
    [exact Z|].
  unfold bind at 1. unfold lift.
  destruct (Line_init (strip text)) as [l|e] eqn:Hl; [|exact Z].
  exists (guard_lines l [declaration l]). split.
  - destruct (Line_no_nl _ Hl) as (Nc & Nf & Ns & Na).
    apply guard_lines_no_nl; [|apply no_nl_version_guard].
    repeat constructor. unfold declaration. now rewrite !no_nl_app, Nc, Nf, Ns.
  - unfold bind. rewrite (@write_raw_sig_parsed _ l st Hl).
    cbn [fst snd].
    match goal with
    | |- raw_defs (snd (let (r, s) := write_cython_sig l ?s0 in _)) = _ =>
        pose proof (write_cython_sig_raw l s0) as E1;
        destruct (write_cython_sig l s0) as [[[]|e1] s1]
    end.
    + cbn [snd] in E1. rewrite write_cython_imp_raw. exact E1.
    + exact E1.
Qed.

(** C9, as the code has it: a line is a header directive exactly when it
    does not start with a space character, does not start with [#] and
    is not empty once stripped; such a line appends the opening of an
    "extern" block to the file of raw definitions, and leaves the two
    other files as they are; any other line appends to the file of raw
    definitions nothing but whole lines that start with two spaces, none
    of which opens an "extern" block. *)
Theorem header_directive_classification (text : string) (st : streams) :
  (is_header text = true <->
   startswith " " text = false /\ startswith "#" text = false
   /\ strip text <> EmptyString)
  /\ (startswith " " text = false ->
      startswith "#" text = false ->
      strip text <> EmptyString ->
      process_line text st =
      (Ok tt,
       mkStreams (raw_defs st ++
                  "cdef extern from " ++ DQ ++ hd EmptyString (split ":" text)
                  ++ ".h" ++ DQ ++ ":" ++ NL)
                 (cython_defs st) (cython_imp st)))
  /\ (~ (startswith " " text = false /\ startswith "#" text = false
         /\ strip text <> EmptyString) ->
      exists ls,
        Forall (fun x => no_nl x = true) ls
        /\ raw_defs (snd (process_line text st))
           = raw_defs st ++ unlines (map (append "  ") ls)).
Proof.
  split; [apply is_header_iff|]. split.
  - intros H1 H2 H3. apply process_header. apply is_header_iff. auto.
  - intros H. apply process_other_raw.
    destruct (is_header text) eqn:E; [|reflexivity].
    apply is_header_iff in E. contradiction.
Qed.

Lemma header_directive_classification_witness :
  process_line ("hdf5:" ++ NL) no_output =
  (Ok tt,
   mkStreams ("cdef extern from " ++ DQ ++ "hdf5.h" ++ DQ ++ ":" ++ NL)
             EmptyString EmptyString)
  /\ exists ls,
       Forall (fun x => no_nl x = true) ls
       /\ raw_defs (snd (process_line ("  " ++ foo_text ++ NL) no_output))
          = raw_defs no_output ++ unlines (map (append "  ") ls).
Proof.
  split.
  - apply (proj1 (proj2 (header_directive_classification ("hdf5:" ++ NL)
                           no_output)));
      [reflexivity | reflexivity | discriminate].
  - apply (proj2 (proj2 (header_directive_classification
                           ("  " ++ foo_text ++ NL) no_output))).
    intros (H & _). discriminate H.
Defined.

(* ------------------------------------------------------------------ *)
(** ** Text after the closing parenthesis                               *)
(* ------------------------------------------------------------------ *)

(** X13: text added after a line that parses never makes the parser
    reject it. *)
Theorem trailing_text_never_rejects (text extra : string) (l : Line) :
  Line_init text = Ok l -> exists l', Line_init (text ++ extra) = Ok l'.
Proof. exact (@Line_init_ignores_trailing_text text extra l). Qed.

Lemma trailing_text_never_rejects_witness :
  exists l', Line_init (bar_text ++ " nogil") = Ok l'.
Proof.
  exact (@trailing_text_never_rejects bar_text " nogil" bar_line eq_refl).
Defined.
